(** * py-tv-ohlc: the TradingView client of [src/lib/tradingview.py]

    A shallow embedding of the protocol layer of the client: the frame codec
    ([send], [_parse_message]), the subscriber registry
    ([_notify_subscribers], [subscribe]) and the candle fetch state machine
    ([get_candles] and its [handle_event] closure), followed by the
    properties of the specification that were checked against them.

    Conventions of the model.
    - Text that travels on the socket, and text that is printed, is a list of
      8-bit characters ([wire]); on that alphabet the class [\d] of Python's
      [re] is exactly the ten ASCII digits.
    - A Python [str] held in a value is a list of Unicode code points
      ([pystr]); [json.dumps] writes such a string in ASCII, [json.loads]
      reads the escapes back.
    - An [int] is a [Z]; a [float] is kept as the text of its literal
      ([JFloat]) and no arithmetic is done on it.
    - A call that can raise returns [Raised e] together with the state as it
      was left at the raise. *)

From stdpp Require Import gmap strings list pretty.
From Stdlib Require Import Ascii ZArith Lia.

Open Scope Z_scope.

(** ** Text *)

Definition wire := list ascii.
Definition pystr := list N.

Definition code (c : ascii) : N := N_of_ascii c.

(** The literal [s] as socket text. *)
Definition txt (s : string) : wire := String.list_ascii_of_string s.

(** The code points of a piece of socket text, and of a literal. *)
Definition cps (w : wire) : pystr := code <$> w.
Definition u (s : string) : pystr := cps (txt s).

(** The double quote, and literals in which an apostrophe stands for it. *)
Definition dq : ascii := "034"%char.
Definition sq (s : string) : wire :=
  (fun c => if (code c =? 39)%N then dq else c) <$> txt s.

(** [str(n)] and the [{n}] of an f-string, for an [int]. *)
Definition str_int (z : Z) : wire := txt (pretty z).

(** ** Lists as Python has them *)

Definition py_len {A} (l : list A) : Z := Z.of_nat (length l).

(** [l[:k]]: a negative [k] counts from the end, and both ends are clamped. *)
Definition slice_to {A} (l : list A) (k : Z) : list A :=
  if 0 <=? k then take (Z.to_nat k) l else take (Z.to_nat (py_len l + k)) l.

(** [l[i]] for a non-negative constant [i]. *)
Definition item {A} (l : list A) (i : nat) : option A := l !! i.

(** [needle in hay] on strings: [needle] occurs as a substring. *)
Fixpoint is_prefix_of {A} `{EqDecision A} (p l : list A) : bool :=
  match p, l with
  | [], _ => true
  | x :: p', y :: l' => bool_decide (x = y) && is_prefix_of p' l'
  | _ :: _, [] => false
  end.

Fixpoint is_substring {A} `{EqDecision A} (p l : list A) : bool :=
  is_prefix_of p l ||
  match l with
  | [] => false
  | _ :: l' => is_substring p l'
  end.

(** ** JSON values *)

#[local] Unset Elimination Schemes.
Inductive json : Type :=
| JNull
| JBool (b : bool)
| JInt (z : Z)
| JFloat (lit : wire)
| JStr (s : pystr)
| JArr (l : list json)
| JObj (kvs : list (pystr * json)).
#[local] Set Elimination Schemes.

(** [d[k] = v] on a dict kept in insertion order: an existing key keeps its
    place and takes the new value, a new key goes to the end. *)
Fixpoint dict_set (d : list (pystr * json)) (k : pystr) (v : json)
  : list (pystr * json) :=
  match d with
  | [] => [(k, v)]
  | (k', v') :: d' =>
      if decide (k' = k) then (k, v) :: d' else (k', v') :: dict_set d' k v
  end.

(** [dict(pairs)]. *)
Definition py_dict (pairs : list (pystr * json)) : list (pystr * json) :=
  foldl (fun d '(k, v) => dict_set d k v) [] pairs.

Fixpoint dict_get (d : list (pystr * json)) (k : pystr) : option json :=
  match d with
  | [] => None
  | (k', v) :: d' => if decide (k' = k) then Some v else dict_get d' k
  end.

(** *** [json.dumps] with its defaults

    [ensure_ascii] is on: every character outside the printable ASCII range,
    the quote and the backslash are escaped. *)

Definition hexd (n : N) : ascii :=
  if (n <? 10)%N then ascii_of_N (48 + n) else ascii_of_N (87 + n).

Definition hex4 (n : N) : wire :=
  [hexd (n / 4096 mod 16); hexd (n / 256 mod 16);
   hexd (n / 16 mod 16); hexd (n mod 16)]%N.

Definition escape_u (n : N) : wire := txt "\u" ++ hex4 n.

Definition escape_char (c : N) : wire :=
  if (c =? 34)%N then [ "\"%char; dq ]
  else if (c =? 92)%N then txt "\\"
  else if (c =? 8)%N then txt "\b"
  else if (c =? 12)%N then txt "\f"
  else if (c =? 10)%N then txt "\n"
  else if (c =? 13)%N then txt "\r"
  else if (c =? 9)%N then txt "\t"
  else if (32 <=? c)%N && (c <=? 126)%N then [ascii_of_N c]
  else if (c <? 65536)%N then escape_u c
  else
    let n := (c - 65536)%N in
    escape_u (55296 + (n / 1024) mod 1024) ++ escape_u (56320 + n mod 1024).

Definition encode_basestring_ascii (s : pystr) : wire :=
  dq :: concat (escape_char <$> s) ++ [dq].

Fixpoint dumps (v : json) : wire :=
  match v with
  | JNull => txt "null"
  | JBool true => txt "true"
  | JBool false => txt "false"
  | JInt z => str_int z
  | JFloat lit => lit
  | JStr s => encode_basestring_ascii s
  | JArr l =>
      txt "[" ++
      (fix items (first : bool) (l : list json) : wire :=
         match l with
         | [] => []
         | x :: l' =>
             (if first then [] else txt ", ") ++ dumps x ++ items false l'
         end) true l ++ txt "]"
  | JObj kvs =>
      txt "{" ++
      (fix members (first : bool) (l : list (pystr * json)) : wire :=
         match l with
         | [] => []
         | (k, x) :: l' =>
             (if first then [] else txt ", ") ++
             encode_basestring_ascii k ++ txt ": " ++ dumps x ++
             members false l'
         end) true kvs ++ txt "}"
  end.

(** *** [json.loads] *)

Inductive presult (A : Type) : Type :=
| POk (a : A) (rest : wire)
| PErr
| PFuel.
Arguments POk {A} a rest.
Arguments PErr {A}.
Arguments PFuel {A}.

Definition is_ws (c : ascii) : bool :=
  let n := code c in
  (n =? 32)%N || (n =? 9)%N || (n =? 10)%N || (n =? 13)%N.

Fixpoint skip_ws (s : wire) : wire :=
  match s with
  | c :: r => if is_ws c then skip_ws r else s
  | [] => []
  end.

Definition is_digit (c : ascii) : bool :=
  let n := code c in (48 <=? n)%N && (n <=? 57)%N.

Definition hexval (c : ascii) : option N :=
  let n := code c in
  if (48 <=? n)%N && (n <=? 57)%N then Some (n - 48)%N
  else if (97 <=? n)%N && (n <=? 102)%N then Some (n - 87)%N
  else if (65 <=? n)%N && (n <=? 70)%N then Some (n - 55)%N
  else None.

Definition hex4val (a b c d : ascii) : option N :=
  ha ← hexval a; hb ← hexval b; hc ← hexval c; hd ← hexval d;
  Some (((ha * 16 + hb) * 16 + hc) * 16 + hd)%N.

(** The one-character escapes of a JSON string. *)
Definition backslash (c : ascii) : option N :=
  let n := code c in
  if (n =? 34)%N then Some 34%N
  else if (n =? 92)%N then Some 92%N
  else if (n =? 47)%N then Some 47%N
  else if (n =? 98)%N then Some 8%N
  else if (n =? 102)%N then Some 12%N
  else if (n =? 110)%N then Some 10%N
  else if (n =? 114)%N then Some 13%N
  else if (n =? 116)%N then Some 9%N
  else None.

Definition is_high_surrogate (n : N) : bool := (55296 <=? n)%N && (n <=? 56319)%N.
Definition is_low_surrogate (n : N) : bool := (56320 <=? n)%N && (n <=? 57343)%N.
Definition join_surrogates (hi lo : N) : N :=
  (65536 + ((hi - 55296) * 1024 + (lo - 56320)))%N.

Definition push (c : N) (r : option (pystr * wire)) : option (pystr * wire) :=
  '(s, rest) ← r; Some (c :: s, rest).

(** The body of a string, after its opening quote, up to the closing one. *)
Fixpoint scanstring (s : wire) : option (pystr * wire) :=
  match s with
  | [] => None
  | c :: r =>
      if (code c =? 34)%N then Some ([], r)
      else if (code c =? 92)%N then
        match r with
        | [] => None
        | e :: r1 =>
            if (code e =? 117)%N then
              match r1 with
              | a :: b :: c' :: d :: r2 =>
                  match hex4val a b c' d with
                  | None => None
                  | Some uni =>
                      if is_high_surrogate uni then
                        match r2 with
                        | b1 :: b2 :: a2 :: b3 :: c2 :: d2 :: r3 =>
                            if (code b1 =? 92)%N && (code b2 =? 117)%N then
                              match hex4val a2 b3 c2 d2 with
                              | None => None
                              | Some uni2 =>
                                  if is_low_surrogate uni2
                                  then push (join_surrogates uni uni2) (scanstring r3)
                                  else push uni (scanstring r2)
                              end
                            else push uni (scanstring r2)
                        | _ => push uni (scanstring r2)
                        end
                      else push uni (scanstring r2)
                  end
              | _ => None
              end
            else
              match backslash e with
              | Some ch => push ch (scanstring r1)
              | None => None
              end
        end
      else if (code c <? 32)%N then None
      else push (code c) (scanstring r)
  end.

Fixpoint span_digits (s : wire) : wire * wire :=
  match s with
  | c :: r =>
      if is_digit c then let '(ds, rest) := span_digits r in (c :: ds, rest)
      else ([], s)
  | [] => ([], [])
  end.

Definition digits_val (ds : wire) : Z :=
  foldl (fun acc c => 10 * acc + Z.of_N (code c - 48)) 0 ds.

(** A number: an optional minus sign, then a single zero or a digit string
    that does not start with zero, then an optional fraction (a dot and at
    least one digit) and an optional exponent (e or E, an optional sign, at
    least one digit). Without fraction and exponent it is an [int], else a
    [float]. *)
Definition parse_number (s : wire) : option (json * wire) :=
  let '(neg, s1) :=
    match s with
    | c :: r => if (code c =? 45)%N then (true, r) else (false, s)
    | [] => (false, s)
    end in
  match s1 with
  | d :: r =>
      if is_digit d then
        let '(ip, r1) :=
          if (code d =? 48)%N then ([d], r) else span_digits s1 in
        let '(frac, r2) :=
          match r1 with
          | p :: r' =>
              if (code p =? 46)%N then
                let '(fd, r'') := span_digits r' in
                match fd with [] => ([], r1) | _ => (p :: fd, r'') end
              else ([], r1)
          | [] => ([], r1)
          end in
        let '(ex, r3) :=
          match r2 with
          | e :: r' =>
              if (code e =? 101)%N || (code e =? 69)%N then
                let '(sg, r'') :=
                  match r' with
                  | g :: x =>
                      if (code g =? 43)%N || (code g =? 45)%N
                      then ([g], x) else ([], r')
                  | [] => ([], r')
                  end in
                let '(ed, r''') := span_digits r'' in
                match ed with [] => ([], r2) | _ => (e :: sg ++ ed, r''') end
              else ([], r2)
          | [] => ([], r2)
          end in
        match frac, ex with
        | [], [] =>
            Some (JInt (if neg then - digits_val ip else digits_val ip), r3)
        | _, _ =>
            Some (JFloat ((if neg then txt "-" else []) ++ ip ++ frac ++ ex), r3)
        end
      else None
  | [] => None
  end.

Definition strip_prefix (p s : wire) : option wire :=
  if is_prefix_of p s then Some (drop (length p) s) else None.

(** A value that is neither a string nor a container. *)
Definition parse_atom (s : wire) : presult json :=
  match strip_prefix (txt "null") s with
  | Some r => POk JNull r
  | None =>
  match strip_prefix (txt "true") s with
  | Some r => POk (JBool true) r
  | None =>
  match strip_prefix (txt "false") s with
  | Some r => POk (JBool false) r
  | None =>
  match parse_number s with
  | Some (v, r) => POk v r
  | None =>
  match strip_prefix (txt "NaN") s with
  | Some r => POk (JFloat (txt "NaN")) r
  | None =>
  match strip_prefix (txt "Infinity") s with
  | Some r => POk (JFloat (txt "Infinity")) r
  | None =>
  match strip_prefix (txt "-Infinity") s with
  | Some r => POk (JFloat (txt "-Infinity")) r
  | None => PErr
  end end end end end end end.

Fixpoint parse_value (fuel : nat) (s : wire) : presult json :=
  match fuel with
  | O => PFuel
  | S f =>
      match s with
      | [] => PErr
      | c :: r =>
          if (code c =? 34)%N then
            match scanstring r with
            | Some (str, r') => POk (JStr str) r'
            | None => PErr
            end
          else if (code c =? 123)%N then
            match skip_ws r with
            | c1 :: r1 =>
                if (code c1 =? 125)%N then POk (JObj []) r1
                else
                  match parse_members f (c1 :: r1) with
                  | POk kvs r' => POk (JObj (py_dict kvs)) r'
                  | PErr => PErr
                  | PFuel => PFuel
                  end
            | [] => PErr
            end
          else if (code c =? 91)%N then
            match skip_ws r with
            | c1 :: r1 =>
                if (code c1 =? 93)%N then POk (JArr []) r1
                else
                  match parse_elems f (c1 :: r1) with
                  | POk l r' => POk (JArr l) r'
                  | PErr => PErr
                  | PFuel => PFuel
                  end
            | [] => PErr
            end
          else parse_atom s
      end
  end
with parse_elems (fuel : nat) (s : wire) : presult (list json) :=
  match fuel with
  | O => PFuel
  | S f =>
      match parse_value f s with
      | POk v r =>
          match skip_ws r with
          | c :: r1 =>
              if (code c =? 93)%N then POk [v] r1
              else if (code c =? 44)%N then
                match parse_elems f (skip_ws r1) with
                | POk l r' => POk (v :: l) r'
                | PErr => PErr
                | PFuel => PFuel
                end
              else PErr
          | [] => PErr
          end
      | PErr => PErr
      | PFuel => PFuel
      end
  end
with parse_members (fuel : nat) (s : wire) : presult (list (pystr * json)) :=
  match fuel with
  | O => PFuel
  | S f =>
      match s with
      | c :: r =>
          if (code c =? 34)%N then
            match scanstring r with
            | Some (k, r1) =>
                match skip_ws r1 with
                | c1 :: r2 =>
                    if (code c1 =? 58)%N then
                      match parse_value f (skip_ws r2) with
                      | POk v r3 =>
                          match skip_ws r3 with
                          | c2 :: r4 =>
                              if (code c2 =? 125)%N then POk [(k, v)] r4
                              else if (code c2 =? 44)%N then
                                match parse_members f (skip_ws r4) with
                                | POk kvs r' => POk ((k, v) :: kvs) r'
                                | PErr => PErr
                                | PFuel => PFuel
                                end
                              else PErr
                          | [] => PErr
                          end
                      | PErr => PErr
                      | PFuel => PFuel
                      end
                    else PErr
                | [] => PErr
                end
            | None => PErr
            end
          else PErr
      | [] => PErr
      end
  end.

(** Enough fuel for any text: a value, an element list and a member list
    each consume a character before they recurse. *)
Definition fuel_for (s : wire) : nat := (2 * length s + 2)%nat.

(** [json.loads]: [None] stands for [JSONDecodeError]. *)
Definition loads (s : wire) : option json :=
  match parse_value (fuel_for s) (skip_ws s) with
  | POk v r => match skip_ws r with [] => Some v | _ => None end
  | _ => None
  end.

(** ** Exceptions *)

Inductive exn : Type :=
| KeyError
| IndexError
| TypeError
| RuntimeError (msg : wire)
| InvalidStateError.

Inductive outcome (A : Type) : Type :=
| Returned (a : A)
| Raised (e : exn).
Arguments Returned {A} a.
Arguments Raised {A} e.

(** [v[k]] for a string key, [v[i]] for a non-negative index, [len(v)] and
    [needle in v], on a value that came out of [json.loads]. *)
Definition getitem_key (v : json) (k : pystr) : outcome json :=
  match v with
  | JObj d => match dict_get d k with Some x => Returned x | None => Raised KeyError end
  | _ => Raised TypeError
  end.

Definition getitem_idx (v : json) (i : nat) : outcome json :=
  match v with
  | JArr l => match item l i with Some x => Returned x | None => Raised IndexError end
  | JStr s => match item s i with Some c => Returned (JStr [c]) | None => Raised IndexError end
  | JObj _ => Raised KeyError
  | _ => Raised TypeError
  end.

Definition contains (needle : pystr) (v : json) : outcome bool :=
  match v with
  | JObj d => Returned (bool_decide (is_Some (dict_get d needle)))
  | JArr l =>
      Returned (existsb (fun x => match x with
                                  | JStr s => bool_decide (s = needle)
                                  | _ => false
                                  end) l)
  | JStr s => Returned (is_substring needle s)
  | _ => Raised TypeError
  end.

(** ** The frame codec *)

(** [re.match(r"~m~\d+~m~", s)]: what follows the marker when [s] starts
    with one. The digits are taken greedily; a shorter run would be followed
    by a digit and not by the tilde. *)
Definition match_marker (s : wire) : option wire :=
  r1 ← strip_prefix (txt "~m~") s;
  let '(ds, r2) := span_digits r1 in
  match ds with
  | [] => None
  | _ => strip_prefix (txt "~m~") r2
  end.

(** [re.split(r"~m~\d+~m~", s)]: the text between the markers, found from
    left to right; [cur] is the piece being read. *)
Fixpoint re_split_go (fuel : nat) (s : wire) (cur : wire) : list wire :=
  match fuel with
  | O => [cur ++ s]
  | S f =>
      match match_marker s with
      | Some rest => cur :: re_split_go f rest []
      | None =>
          match s with
          | [] => [cur]
          | c :: r => re_split_go f r (cur ++ [c])
          end
      end
  end.

Definition re_split (s : wire) : list wire := re_split_go (S (length s)) s [].

(** The dicts [{"type": ..., "data": ...}] that [_parse_message] returns. *)
Inductive payload : Type :=
| Ping (data : wire)
| Session (data : json)
| Event (data : json).

Definition parse_error_line (event : wire) : wire :=
  txt "Failed to parse message: " ++ event.

(** The loop of [_parse_message] over the segments: [result] is the list
    built so far, [out] the lines printed so far. A segment whose JSON value
    cannot be searched for [session_id] raises out of the loop. *)
Fixpoint parse_events (events : list wire) (result : list payload) (out : list wire)
  : list wire * outcome (list payload) :=
  match events with
  | [] => (out, Returned result)
  | event :: rest =>
      if is_prefix_of (txt "~h~") event then
        parse_events rest
          (result ++ [Ping (txt "~m~" ++ str_int (py_len event) ++ txt "~m~" ++ event)])
          out
      else
        match loads event with
        | Some parsed =>
            match contains (u "session_id") parsed with
            | Returned true => parse_events rest (result ++ [Session parsed]) out
            | Returned false => parse_events rest (result ++ [Event parsed]) out
            | Raised e => (out, Raised e)
            end
        | None => parse_events rest result (out ++ [parse_error_line event])
        end
  end.

Definition _parse_message (message : wire) : list wire * outcome (list payload) :=
  match message with
  | [] => ([], Returned [])
  | _ => parse_events (tail (re_split message)) [] []
  end.

(** ** The client *)

Record TradingviewEvent : Type := {
  name : json;
  params : json
}.

(** A handler is known to the registry by its identity. *)
Definition hid := positive.

(** [websocket] tells whether [self.websocket] holds a socket object;
    [writes] lists the [send_str] tasks created so far, oldest first. *)
Record TradingviewClient : Type := {
  websocket : bool;
  subscribers : gset hid;
  connected : bool;
  writes : list wire
}.

Definition new_client : TradingviewClient :=
  {| websocket := false; subscribers := ∅; connected := false; writes := [] |}.

Definition set_websocket (b : bool) (c : TradingviewClient) : TradingviewClient :=
  {| websocket := b; subscribers := subscribers c;
     connected := connected c; writes := writes c |}.
Definition set_subscribers (s : gset hid) (c : TradingviewClient) : TradingviewClient :=
  {| websocket := websocket c; subscribers := s;
     connected := connected c; writes := writes c |}.
Definition set_connected (b : bool) (c : TradingviewClient) : TradingviewClient :=
  {| websocket := websocket c; subscribers := subscribers c;
     connected := b; writes := writes c |}.
Definition set_writes (w : list wire) (c : TradingviewClient) : TradingviewClient :=
  {| websocket := websocket c; subscribers := subscribers c;
     connected := connected c; writes := w |}.

(** The frame that [send] writes for a message. *)
Definition message_data (nm : pystr) (ps : list json) : wire :=
  dumps (JObj [(u "m", JStr nm); (u "p", JArr ps)]).

Definition frame (data : wire) : wire :=
  txt "~m~" ++ str_int (py_len data) ++ txt "~m~" ++ data.

Definition not_connected : exn := RuntimeError (txt "Not connected to TradingView").

Definition send (nm : pystr) (ps : list json) (c : TradingviewClient)
  : outcome unit * TradingviewClient :=
  if negb (websocket c) then (Raised not_connected, c)
  else (Returned tt, set_writes (writes c ++ [frame (message_data nm ps)]) c).

Definition _add_event_handler (h : hid) (c : TradingviewClient) : TradingviewClient :=
  set_subscribers ({[h]} ∪ subscribers c) c.

Definition subscribe (h : hid) (c : TradingviewClient) : TradingviewClient :=
  set_subscribers ({[h]} ∪ subscribers c) c.

(** The closure that [subscribe] returns. *)
Definition unsubscribe (h : hid) (c : TradingviewClient) : TradingviewClient :=
  set_subscribers (subscribers c ∖ {[h]}) c.

(** The read loop on an event payload (lines 105 to 108):
    [TradingviewEvent(name=data["m"], params=data["p"])]. *)
Definition event_of (data : json) : outcome TradingviewEvent :=
  match getitem_key data (u "m") with
  | Raised e => Raised e
  | Returned n =>
      match getitem_key data (u "p") with
      | Raised e => Raised e
      | Returned p => Returned {| name := n; params := p |}
      end
  end.

(** [connect] up to its wait: the socket is opened and the one-shot handler
    [h] for the session frame is registered. *)
Definition connect_open (h : hid) (c : TradingviewClient) : TradingviewClient :=
  _add_event_handler h (set_websocket true c).

(** The handler [on_session] of [connect], for the token it resolved. *)
Definition on_session (token : pystr) (event : TradingviewEvent) (c : TradingviewClient)
  : outcome bool * TradingviewClient :=
  match name event with
  | JStr n =>
      if bool_decide (n = u "session_event") then
        match send (u "set_auth_token") [JStr token] c with
        | (Returned _, c') => (Returned true, set_connected true c')
        | (Raised e, c') => (Raised e, c')
        end
      else (Returned false, c)
  | _ => (Returned false, c)
  end.

(** [close]: the socket object stays in [self.websocket]. *)
Definition close (c : TradingviewClient) : TradingviewClient :=
  set_connected false c.

(** ** The subscriber registry

    [subscribers] is a Python [set] of handler objects, here a [gset] of
    their identities: a loop over it visits its members in an order that the
    members fix ([elements]), as the hashes of the objects do in Python, and
    not the order in which they were added. The handlers
    themselves are closures: [call h event] is what invoking the handler of
    identity [h] does to the client and to the state [S] that the closures
    capture, and what it returns ([Returned b], with [b] the truth value of
    the returned object) or raises ([Raised e], an instance of
    [Exception]). *)

Inductive publish_end : Type :=
| Completed
| SetChangedSize      (* RuntimeError: Set changed size during iteration *)
| SetChangedInPlace.  (* same size, other members: the walk then depends on
                         the layout of the hash table, which is not modelled *)

Section EventBus.
Context {S : Type}.

Definition world : Type := TradingviewClient * S.

Variable call : hid -> TradingviewEvent -> world -> outcome bool * world.

Record published : Type := {
  p_world : world;
  p_calls : list (hid * outcome bool);  (* the invocations made, in order *)
  p_reported : list exn;                (* the errors printed *)
  p_end : publish_end
}.

(** What the set iterator finds when it is asked for the next handler. *)
Definition iterator_check (start : gset hid) (w : world) : publish_end :=
  if decide (subscribers w.1 = start) then Completed
  else if decide (size (subscribers w.1) = size start) then SetChangedInPlace
  else SetChangedSize.

Definition discard_all (hs : list hid) (w : world) : world :=
  (foldl (fun c h => unsubscribe h c) w.1 hs, w.2).

(** The first loop of [_notify_subscribers] over the handlers still to
    visit, then the second loop over [handlers_to_remove]. *)
Fixpoint notify_loop (event : TradingviewEvent) (start : gset hid)
    (pending : list hid) (handlers_to_remove : list hid)
    (calls : list (hid * outcome bool)) (reported : list exn) (w : world)
  : published :=
  match iterator_check start w with
  | Completed =>
      match pending with
      | [] =>
          {| p_world := discard_all handlers_to_remove w;
             p_calls := calls; p_reported := reported; p_end := Completed |}
      | h :: rest =>
          match call h event w with
          | (Returned b, w') =>
              notify_loop event start rest
                (if b then handlers_to_remove ++ [h] else handlers_to_remove)
                (calls ++ [(h, Returned b)]) reported w'
          | (Raised e, w') =>
              notify_loop event start rest handlers_to_remove
                (calls ++ [(h, Raised e)]) (reported ++ [e]) w'
          end
      end
  | stop =>
      {| p_world := w; p_calls := calls; p_reported := reported; p_end := stop |}
  end.

Definition _notify_subscribers (event : TradingviewEvent) (w : world) : published :=
  notify_loop event (subscribers w.1) (elements (subscribers w.1)) [] [] [] w.

(** The handlers that a publish asked to remove. *)
Definition asked_removal (calls : list (hid * outcome bool)) : list hid :=
  omap (fun '(h, r) => match r with Returned true => Some h | _ => None end) calls.

(** Handlers that neither subscribe nor unsubscribe while they run. *)
Definition leaves_registry (event : TradingviewEvent) : Prop :=
  forall h w, subscribers (call h event w).2.1 = subscribers w.1.
End EventBus.

(** ** The candle fetch *)

Module Candle.
Record t : Type := {
  timestamp : json;
  high : json;
  low : json;
  open : json;
  close : json;
  volume : json
}.
End Candle.
Abbreviation Candle := Candle.t.

Inductive Timeframe : Type :=
| TfInt (n : Z)
| TfStr (s : pystr).

Definition str_timeframe (t : Timeframe) : pystr :=
  match t with
  | TfInt n => cps (str_int n)
  | TfStr s => s
  end.

Definition MAX_BATCH_SIZE : Z := 5000.

Record FetchConfig : Type := {
  symbols : list pystr;
  amount : option Z;
  timeframe : Timeframe;
  chart_session : pystr
}.

(** The truth value of [amount]: [None] and [0] are false. *)
Definition given (amount : option Z) : bool :=
  match amount with
  | Some a => negb (a =? 0)
  | None => false
  end.

Definition batch_size (amount : option Z) : Z :=
  match amount with
  | Some a => if negb (a =? 0) && (a <? MAX_BATCH_SIZE) then a else MAX_BATCH_SIZE
  | None => MAX_BATCH_SIZE
  end.

(** The variables that [handle_event] closes over. *)
Record FetchState : Type := {
  all_candles : list (list Candle);
  current_sym_index : nat;
  symbol : pystr;
  current_sym_candles : list json;
  result_future : option (list Candle)
}.

Definition set_all_candles (x : list (list Candle)) (st : FetchState) : FetchState :=
  {| all_candles := x; current_sym_index := current_sym_index st;
     symbol := symbol st; current_sym_candles := current_sym_candles st;
     result_future := result_future st |}.
Definition set_current_sym_index (x : nat) (st : FetchState) : FetchState :=
  {| all_candles := all_candles st; current_sym_index := x;
     symbol := symbol st; current_sym_candles := current_sym_candles st;
     result_future := result_future st |}.
Definition set_symbol (x : pystr) (st : FetchState) : FetchState :=
  {| all_candles := all_candles st; current_sym_index := current_sym_index st;
     symbol := x; current_sym_candles := current_sym_candles st;
     result_future := result_future st |}.
Definition set_current_sym_candles (x : list json) (st : FetchState) : FetchState :=
  {| all_candles := all_candles st; current_sym_index := current_sym_index st;
     symbol := symbol st; current_sym_candles := x;
     result_future := result_future st |}.
Definition set_result_future (x : option (list Candle)) (st : FetchState) : FetchState :=
  {| all_candles := all_candles st; current_sym_index := current_sym_index st;
     symbol := symbol st; current_sym_candles := current_sym_candles st;
     result_future := x |}.

(** Code that reads and writes a state and may raise. *)
Definition M (St A : Type) : Type := St -> outcome A * St.

#[export] Instance M_ret {St} : MRet (M St) := fun A a s => (Returned a, s).
#[export] Instance M_bind {St} : MBind (M St) := fun A B k m s =>
  match m s with
  | (Returned a, s') => k a s'
  | (Raised e, s') => (Raised e, s')
  end.

Definition lift {St A} (r : outcome A) : M St A := fun s => (r, s).
Definition fetch_state {C St} : M (C * St) St := fun w => (Returned w.2, w).
Definition modify {C St} (f : St -> St) : M (C * St) unit :=
  fun w => (Returned tt, (w.1, f w.2)).
Definition on_client {C St A} (m : M C A) : M (C * St) A := fun w =>
  let '(r, c) := m w.1 in (r, (c, w.2)).

(** [Candle(timestamp=c['v'][0], open_price=c['v'][1], ...)]. *)
Definition field (c : json) (i : nat) : outcome json :=
  match getitem_key c (u "v") with
  | Returned v => getitem_idx v i
  | Raised e => Raised e
  end.

Definition to_candle (c : json) : outcome Candle :=
  match field c 0 with Raised e => Raised e | Returned t =>
  match field c 1 with Raised e => Raised e | Returned o =>
  match field c 2 with Raised e => Raised e | Returned h =>
  match field c 3 with Raised e => Raised e | Returned l =>
  match field c 4 with Raised e => Raised e | Returned cl =>
  match field c 5 with Raised e => Raised e | Returned vol =>
    Returned {| Candle.timestamp := t; Candle.high := h; Candle.low := l;
                Candle.open := o; Candle.close := cl; Candle.volume := vol |}
  end end end end end end.

(** The list comprehension over the accumulated rows. *)
Fixpoint to_candles (rows : list json) : outcome (list Candle) :=
  match rows with
  | [] => Returned []
  | c :: rows' =>
      match to_candle c with
      | Raised e => Raised e
      | Returned x =>
          match to_candles rows' with
          | Raised e => Raised e
          | Returned xs => Returned (x :: xs)
          end
      end
  end.

(** The three statements on [new_candles]. Only a list gets through: on a
    string or a dict the slice or the concatenation with the accumulator
    raises, on anything else [len] does (a [TypeError], but for the slice
    of a dict, which is a [KeyError] from Python 3.12 on; nothing below
    depends on which); the accumulator is assigned last. *)
Definition merge_rows (new_candles : json) (bs : Z) (cur : list json)
  : outcome (list json) :=
  match new_candles with
  | JArr l =>
      Returned ((if py_len l >? bs then slice_to l (py_len l - py_len cur) else l)
                ++ cur)
  | _ => Raised TypeError
  end.

Definition name_is (event : TradingviewEvent) (s : string) : bool :=
  match name event with
  | JStr n => bool_decide (n = u s)
  | _ => false
  end.

Definition symbol_spec (sym : pystr) : json :=
  JStr (cps (txt "=" ++
             dumps (JObj [(u "symbol", JStr sym); (u "adjustment", JStr (u "splits"))]))).

Definition sds_sym (i : nat) : json := JStr (cps (txt "sds_sym_" ++ str_int (Z.of_nat i))).
Definition series_id (i : nat) : json := JStr (cps (txt "s" ++ str_int (Z.of_nat i))).

(** [future.set_result]. *)
Definition set_result (x : list Candle) : M (TradingviewClient * FetchState) unit :=
  fun w =>
    match result_future w.2 with
    | None => (Returned tt, (w.1, set_result_future (Some x) w.2))
    | Some _ => (Raised InvalidStateError, w)
    end.

(** [event.params[1]['sds_1']['s']]. *)
Definition delivered (event : TradingviewEvent) : outcome json :=
  match getitem_idx (params event) 1 with
  | Raised e => Raised e
  | Returned p1 =>
      match getitem_key p1 (u "sds_1") with
      | Raised e => Raised e
      | Returned sds => getitem_key sds (u "s")
      end
  end.

(** The branch for [timescale_update] (lines 233 to 238). *)
Definition on_timescale_update (cfg : FetchConfig) (event : TradingviewEvent)
  : M (TradingviewClient * FetchState) bool :=
  new_candles ← lift (delivered event);
  st ← fetch_state;
  merged ← lift (merge_rows new_candles (batch_size (amount cfg)) (current_sym_candles st));
  modify (set_current_sym_candles merged);;
  mret false.

(** The test of line 243 on [loaded_count]. *)
Definition another_page (a : option Z) (loaded_count : Z) : bool :=
  (loaded_count >? 0) && (loaded_count `mod` batch_size a =? 0)
  && (negb (given a)
      || match a with Some n => loaded_count <? n | None => false end).

(** Lines 248 to 288: the current symbol is fully loaded. *)
Definition symbol_loaded (cfg : FetchConfig) : M (TradingviewClient * FetchState) bool :=
  (if given (amount cfg)
   then modify (fun st => set_current_sym_candles
                  (slice_to (current_sym_candles st) (default 0 (amount cfg))) st)
   else mret tt);;
  st ← fetch_state;
  candles ← lift (to_candles (current_sym_candles st));
  modify (fun st => set_all_candles (all_candles st ++ [candles]) st);;
  st ← fetch_state;
  if py_len (symbols cfg) - 1 >? Z.of_nat (current_sym_index st) then
    let i := (current_sym_index st + 1)%nat in
    modify (set_current_sym_candles []);;
    modify (set_current_sym_index i);;
    sym ← lift (match symbols cfg !! i with
                | Some s => Returned s
                | None => Raised IndexError
                end);
    modify (set_symbol sym);;
    on_client (send (u "resolve_symbol")
                 [JStr (chart_session cfg); sds_sym i; symbol_spec sym]);;
    on_client (send (u "modify_series")
                 [JStr (chart_session cfg); JStr (u "sds_1"); series_id i;
                  sds_sym i; JStr (str_timeframe (timeframe cfg)); JStr []]);;
    mret false
  else
    st ← fetch_state;
    set_result (match all_candles st with x :: _ => x | [] => [] end);;
    mret true.

(** The message that asks for the next page. *)
Definition request_more_data (cfg : FetchConfig) : wire :=
  frame (message_data (u "request_more_data")
           [JStr (chart_session cfg); JStr (u "sds_1"); JInt (batch_size (amount cfg))]).

(** The branch for [series_completed] and [symbol_error] (lines 242 to 288). *)
Definition on_series_end (cfg : FetchConfig) : M (TradingviewClient * FetchState) bool :=
  st ← fetch_state;
  let loaded_count := py_len (current_sym_candles st) in
  if another_page (amount cfg) loaded_count then
    on_client (send (u "request_more_data")
                 [JStr (chart_session cfg); JStr (u "sds_1");
                  JInt (batch_size (amount cfg))]);;
    mret false
  else symbol_loaded cfg.

Definition series_end (event : TradingviewEvent) : bool :=
  name_is event "series_completed" || name_is event "symbol_error".

Definition handle_event (cfg : FetchConfig) (event : TradingviewEvent)
  : M (TradingviewClient * FetchState) bool :=
  if name_is event "timescale_update" then on_timescale_update cfg event
  else if series_end event then on_series_end cfg
  else mret false.

(** [get_candles] up to its [await]: either it has returned already, or the
    handler of identity [h] waits for events with the state [st]. *)
Inductive started : Type :=
| Finished (candles : list Candle)
| Awaiting (st : FetchState).

(** The closure variables as lines 222 to 226 set them. *)
Definition first_state (sym : pystr) : FetchState :=
  {| all_candles := []; current_sym_index := 0; symbol := sym;
     current_sym_candles := []; result_future := None |}.

Definition get_candles (h : hid) (cfg : FetchConfig)
  : M TradingviewClient started :=
  match symbols cfg with
  | [] => mret (Finished [])
  | sym :: _ =>
      let bs := batch_size (amount cfg) in
      let st := first_state sym in
      (fun c => (Returned tt, _add_event_handler h c));;
      send (u "chart_create_session") [JStr (chart_session cfg); JStr []];;
      send (u "resolve_symbol")
        [JStr (chart_session cfg); JStr (u "sds_sym_0"); symbol_spec sym];;
      send (u "create_series")
        [JStr (chart_session cfg); JStr (u "sds_1"); JStr (u "s0");
         JStr (u "sds_sym_0"); JStr (str_timeframe (timeframe cfg)); JInt bs;
         JStr []];;
      mret (Awaiting st)
  end.

(** * Properties *)

#[global] Arguments txt : simpl never.
#[global] Arguments u : simpl never.
#[global] Arguments sq : simpl never.
#[global] Arguments str_int : simpl never.
#[global] Arguments is_prefix_of : simpl never.
#[global] Arguments strip_prefix : simpl never.
#[global] Arguments loads : simpl never.
#[global] Arguments contains : simpl never.
#[global] Arguments frame : simpl never.
#[global] Arguments message_data : simpl never.
#[global] Arguments re_split : simpl never.
#[global] Arguments slice_to : simpl never.
#[global] Arguments py_len : simpl never.

(** ** JSON: the fuel of [loads] never runs out *)

Lemma span_digits_length (s ds r : wire) :
  span_digits s = (ds, r) -> length s = (length ds + length r)%nat.
Proof.
  revert ds r. induction s as [|c s IH]; intros ds r; simpl.
  { by intros [= <- <-]. }
  destruct (is_digit c); [|by intros [= <- <-]].
  destruct (span_digits s) as [ds' r'] eqn:E. intros [= <- <-].
  simpl. by rewrite (IH ds' r').
Qed.

Lemma strip_prefix_length (p s r : wire) :
  strip_prefix p s = Some r -> length s = (length p + length r)%nat.
Proof.
  unfold strip_prefix. destruct (is_prefix_of p s) eqn:E; [|done]. intros [= <-].
  revert s E. induction p as [|a p IH]; intros s E; [done|].
  destruct s as [|b s]; [done|]. cbn [is_prefix_of] in E.
  apply andb_true_iff in E as [_ E]. simpl. by rewrite (IH s E).
Qed.

Lemma span_digits_digit (d : ascii) (s ds r : wire) :
  is_digit d = true -> span_digits (d :: s) = (ds, r) -> (length r <= length s)%nat.
Proof.
  intros Hd. simpl. rewrite Hd. destruct (span_digits s) as [ds' r'] eqn:E.
  intros [= <- <-]. apply span_digits_length in E. lia.
Qed.

Lemma parse_number_shorter (s : wire) (v : json) (r : wire) :
  parse_number s = Some (v, r) -> (length r < length s)%nat.
Proof.
  unfold parse_number. intros H.
  repeat (case_match; simplify_eq);
    repeat match goal with
           | D : is_digit ?d = true, E : span_digits (?d :: _) = _ |- _ =>
               apply (span_digits_digit _ _ _ _ D) in E
           | E : span_digits _ = _ |- _ => apply span_digits_length in E
           end;
    simpl in *; lia.
Qed.

Lemma parse_atom_shorter (s : wire) (v : json) (r : wire) :
  parse_atom s = POk v r -> (length r < length s)%nat.
Proof.
  unfold parse_atom. intros H.
  repeat (case_match; simplify_eq);
    repeat match goal with
           | E : strip_prefix _ _ = Some _ |- _ => apply strip_prefix_length in E
           | E : parse_number _ = Some _ |- _ => apply parse_number_shorter in E
           end;
    simpl in *; lia.
Qed.

Lemma push_Some (c : N) (x : option (pystr * wire)) (k : pystr) (r : wire) :
  push c x = Some (k, r) -> exists k', x = Some (k', r).
Proof. destruct x as [[k' r']|]; [|done]. intros [= <- <-]. by exists k'. Qed.

Lemma scanstring_shorter (s : wire) (k : pystr) (r : wire) :
  scanstring s = Some (k, r) -> (length r < length s)%nat.
Proof.
  remember (length s) as n eqn:Hn. revert s k r Hn.
  induction (lt_wf n) as [n _ IH]. intros s k r -> H.
  destruct s as [|c s]; [done|]. cbn [scanstring] in H.
  repeat (case_match; simplify_eq);
    try match goal with
        | E : push _ (scanstring ?x) = Some _ |- _ =>
            apply push_Some in E as [k' E];
            apply (IH (length x)) in E; simpl in *; [lia|lia|done]
        end.
  simpl. lia.
Qed.

Lemma length_skip_ws (s : wire) : (length (skip_ws s) <= length s)%nat.
Proof.
  induction s as [|c s IH]; simpl; [done|]. destruct (is_ws c); simpl; lia.
Qed.

Lemma skip_ws_cons_length (s : wire) (c : ascii) (r : wire) :
  skip_ws s = c :: r -> (length r < length s)%nat.
Proof. intros H. pose proof (length_skip_ws s) as L. rewrite H in L. simpl in L. lia. Qed.

Ltac measure_rest :=
  repeat match goal with
         | E : skip_ws _ = _ :: _ |- _ => apply skip_ws_cons_length in E
         | E : scanstring _ = Some _ |- _ => apply scanstring_shorter in E
         | E : parse_atom _ = POk _ _ |- _ => apply parse_atom_shorter in E
         end;
  repeat match goal with
         | H : context [length (skip_ws ?x)] |- _ =>
             lazymatch goal with
             | _ : (length (skip_ws x) <= length x)%nat |- _ => fail
             | _ => pose proof (length_skip_ws x)
             end
         | |- context [length (skip_ws ?x)] =>
             lazymatch goal with
             | _ : (length (skip_ws x) <= length x)%nat |- _ => fail
             | _ => pose proof (length_skip_ws x)
             end
         end.

Lemma parse_shorter (fuel : nat) :
  (forall s v r, parse_value fuel s = POk v r -> (length r < length s)%nat)
  /\ (forall s l r, parse_elems fuel s = POk l r -> (length r < length s)%nat)
  /\ (forall s l r, parse_members fuel s = POk l r -> (length r < length s)%nat).
Proof.
  induction fuel as [|f (IHv & IHe & IHm)]; [done|].
  split; [|split]; intros s x r H.
  - cbn [parse_value] in H.
    repeat (case_match; simplify_eq);
      repeat match goal with
             | E : parse_elems f _ = POk _ _ |- _ => apply IHe in E
             | E : parse_members f _ = POk _ _ |- _ => apply IHm in E
             end;
      measure_rest; simpl in *; lia.
  - cbn [parse_elems] in H.
    repeat (case_match; simplify_eq);
      repeat match goal with
             | E : parse_value f _ = POk _ _ |- _ => apply IHv in E
             | E : parse_elems f _ = POk _ _ |- _ => apply IHe in E
             end;
      measure_rest; simpl in *; lia.
  - cbn [parse_members] in H.
    repeat (case_match; simplify_eq);
      repeat match goal with
             | E : parse_value f _ = POk _ _ |- _ => apply IHv in E
             | E : parse_members f _ = POk _ _ |- _ => apply IHm in E
             end;
      measure_rest; simpl in *; lia.
Qed.

Lemma parse_fuel (fuel : nat) :
  (forall s, (2 * length s < fuel)%nat -> parse_value fuel s <> PFuel)
  /\ (forall s, (2 * length s + 1 < fuel)%nat -> parse_elems fuel s <> PFuel)
  /\ (forall s, (2 * length s + 1 < fuel)%nat -> parse_members fuel s <> PFuel).
Proof.
  induction fuel as [|f (IHv & IHe & IHm)]; [repeat split; intros; lia|].
  pose proof (parse_shorter f) as (Sv & Se & Sm).
  split; [|split]; intros s Hfuel H.
  - cbn [parse_value] in H.
    repeat (case_match; simplify_eq);
      try match goal with
          | E : parse_elems f ?x = PFuel |- _ => apply (IHe x); [|done]
          | E : parse_members f ?x = PFuel |- _ => apply (IHm x); [|done]
          | E : parse_atom _ = PFuel |- _ =>
              unfold parse_atom in E; repeat (case_match; simplify_eq)
          end;
      measure_rest; simpl in *; lia.
  - cbn [parse_elems] in H.
    repeat (case_match; simplify_eq);
      repeat match goal with
             | E : parse_value f _ = POk _ _ |- _ => apply Sv in E
             end;
      try match goal with
          | E : parse_value f ?x = PFuel |- _ => apply (IHv x); [|done]
          | E : parse_elems f ?x = PFuel |- _ => apply (IHe x); [|done]
          end;
      measure_rest; simpl in *; lia.
  - cbn [parse_members] in H.
    repeat (case_match; simplify_eq);
      repeat match goal with
             | E : parse_value f _ = POk _ _ |- _ => apply Sv in E
             end;
      try match goal with
          | E : parse_value f ?x = PFuel |- _ => apply (IHv x); [|done]
          | E : parse_members f ?x = PFuel |- _ => apply (IHm x); [|done]
          end;
      measure_rest; simpl in *; lia.
Qed.

(** [loads] returns [None] only for a text that is no JSON value: its fuel
    is never used up. *)
Lemma loads_fuel (s : wire) : parse_value (fuel_for s) (skip_ws s) <> PFuel.
Proof.
  apply parse_fuel. pose proof (length_skip_ws s). unfold fuel_for. lia.
Qed.

Lemma loads_None (s : wire) :
  loads s = None ->
  parse_value (fuel_for s) (skip_ws s) = PErr
  \/ exists v c r r',
       parse_value (fuel_for s) (skip_ws s) = POk v r' /\ skip_ws r' = c :: r.
Proof.
  unfold loads. pose proof (loads_fuel s) as Hfuel.
  destruct (parse_value (fuel_for s) (skip_ws s)) as [v r'| |]; [|by left|done].
  destruct (skip_ws r') as [|c r] eqn:E; [done|]. intros _. right. by exists v, c, r, r'.
Qed.

Lemma match_marker_shorter (s r : wire) :
  match_marker s = Some r -> (length r < length s)%nat.
Proof.
  unfold match_marker. intros H.
  destruct (strip_prefix (txt "~m~") s) as [r1|] eqn:E1; [|done].
  cbn [mbind option_bind] in H.
  destruct (span_digits r1) as [ds r2] eqn:E2. destruct ds; [done|].
  apply strip_prefix_length in E1, H. apply span_digits_length in E2.
  simpl in *. lia.
Qed.

(** The fuel of [re_split] is never used up: more of it changes nothing. *)
Lemma re_split_go_fuel (fuel : nat) (s cur : wire) :
  (length s < fuel)%nat -> re_split_go (S fuel) s cur = re_split_go fuel s cur.
Proof.
  revert s cur. induction fuel as [|f IH]; intros s cur Hfuel; [lia|].
  cbn [re_split_go]. destruct (match_marker s) as [rest|] eqn:E.
  - apply match_marker_shorter in E. f_equal. apply IH. lia.
  - destruct s as [|c s]; [done|]. apply IH. simpl in Hfuel. lia.
Qed.

(** ** JSON: reading back what was written *)

(** Strings of Unicode scalar values: code points that are no surrogates. *)
Definition scalar (c : N) : bool :=
  ((c <? 55296) || (57344 <=? c) && (c <? 1114112))%N.

Definition wf_pystr (s : pystr) : bool := forallb scalar s.

Lemma hexval_hexd (d : N) : (d < 16)%N -> hexval (hexd d) = Some d.
Proof.
  intros Hd.
  assert (forallb (fun d => bool_decide (hexval (hexd d) = Some d))
            (N.of_nat <$> seq 0 16) = true) as Hall by (by vm_compute).
  rewrite forallb_forall in Hall.
  specialize (Hall d). rewrite bool_decide_eq_true in Hall. apply Hall.
  apply list_elem_of_In, list_elem_of_fmap. exists (N.to_nat d).
  split; [lia|]. apply elem_of_seq. lia.
Qed.

Lemma hex4val_hex4 (n : N) (rest : wire) :
  (n < 65536)%N ->
  match hex4 n ++ rest with
  | a :: b :: c :: d :: r => hex4val a b c d = Some n /\ r = rest
  | _ => False
  end.
Proof.
  intros Hn. unfold hex4. simpl. split; [|done]. unfold hex4val.
  do 4 (rewrite hexval_hexd by (apply N.mod_lt; lia); simpl). f_equal.
  replace (n / 4096)%N with (n / 16 / 16 / 16)%N by (by rewrite !N.Div0.div_div).
  replace (n / 256)%N with (n / 16 / 16)%N by (by rewrite !N.Div0.div_div).
  zify. Z.to_euclidean_division_equations. lia.
Qed.

Lemma code_ascii_of_N (c : N) : (c < 256)%N -> code (ascii_of_N c) = c.
Proof. apply N_ascii_embedding. Qed.

Lemma scanstring_u (a b c d : ascii) (r2 : wire) :
  scanstring ("\"%char :: "u"%char :: a :: b :: c :: d :: r2) =
  match hex4val a b c d with
  | None => None
  | Some uni =>
      if is_high_surrogate uni then
        match r2 with
        | b1 :: b2 :: a2 :: b3 :: c2 :: d2 :: r3 =>
            if (code b1 =? 92)%N && (code b2 =? 117)%N then
              match hex4val a2 b3 c2 d2 with
              | None => None
              | Some uni2 =>
                  if is_low_surrogate uni2
                  then push (join_surrogates uni uni2) (scanstring r3)
                  else push uni (scanstring r2)
              end
            else push uni (scanstring r2)
        | _ => push uni (scanstring r2)
        end
      else push uni (scanstring r2)
  end.
Proof. reflexivity. Qed.

Lemma scanstring_escape_u (n : N) (r : wire) :
  (n < 65536)%N ->
  scanstring (escape_u n ++ r) =
  if is_high_surrogate n then
    match r with
    | b1 :: b2 :: a2 :: b3 :: c2 :: d2 :: r3 =>
        if (code b1 =? 92)%N && (code b2 =? 117)%N then
          match hex4val a2 b3 c2 d2 with
          | None => None
          | Some uni2 =>
              if is_low_surrogate uni2
              then push (join_surrogates n uni2) (scanstring r3)
              else push n (scanstring r)
          end
        else push n (scanstring r)
    | _ => push n (scanstring r)
    end
  else push n (scanstring r).
Proof.
  intros Hn. pose proof (hex4val_hex4 n r Hn) as H.
  unfold escape_u. change (txt "\u" ++ hex4 n) with ("\"%char :: "u"%char :: hex4 n).
  rewrite <- !app_comm_cons.
  destruct (hex4 n ++ r) as [|a [|b [|c [|d r2]]]]; try done.
  destruct H as [H ->]. by rewrite scanstring_u, H.
Qed.

#[global] Arguments escape_u : simpl never.

Lemma scanstring_plain (ch : ascii) (r : wire) :
  code ch <> 34%N -> code ch <> 92%N -> (32 <= code ch)%N ->
  scanstring (ch :: r) = push (code ch) (scanstring r).
Proof.
  intros H1 H2 H3. cbn [scanstring].
  destruct (N.eqb_spec (code ch) 34); [done|].
  destruct (N.eqb_spec (code ch) 92); [done|].
  by destruct (N.ltb_spec (code ch) 32); [lia|].
Qed.

Lemma scanstring_escape_char (c : N) (r : wire) :
  scalar c = true -> scanstring (escape_char c ++ r) = push c (scanstring r).
Proof.
  intros Hc. unfold escape_char.
  destruct (N.eqb_spec c 34) as [->|?]; [done|].
  destruct (N.eqb_spec c 92) as [->|?]; [done|].
  destruct (N.eqb_spec c 8) as [->|?]; [done|].
  destruct (N.eqb_spec c 12) as [->|?]; [done|].
  destruct (N.eqb_spec c 10) as [->|?]; [done|].
  destruct (N.eqb_spec c 13) as [->|?]; [done|].
  destruct (N.eqb_spec c 9) as [->|?]; [done|].
  destruct (N.leb_spec 32 c); cbn [andb].
  { destruct (N.leb_spec c 126); cbn [andb].
    - cbn [app]. rewrite scanstring_plain; rewrite code_ascii_of_N by lia; done.
    - destruct (N.ltb_spec c 65536).
      + rewrite scanstring_escape_u by done.
        unfold scalar in Hc. unfold is_high_surrogate.
        destruct (N.leb_spec 55296 c), (N.leb_spec c 56319); simpl; try done.
        exfalso. revert Hc.
        destruct (N.ltb_spec c 55296), (N.leb_spec 57344 c); simpl; try lia; done.
      + unfold scalar in Hc.
        assert (c < 1114112)%N as Hmax.
        { revert Hc. destruct (N.ltb_spec c 55296), (N.ltb_spec c 1114112);
            rewrite ?andb_false_r; simpl; try lia; done. }
        set (k := (c - 65536)%N).
        assert (k / 1024 < 1024)%N as Hhi by (apply N.Div0.div_lt_upper_bound; lia).
        rewrite (N.mod_small (k / 1024) 1024) by done.
        assert (k mod 1024 < 1024)%N as Hlo by (apply N.mod_lt; lia).
        assert (c = 65536 + k)%N as Hk by lia.
        pose proof (N.Div0.div_mod k 1024) as Hdiv.
        clearbody k.
        remember (k / 1024)%N as hi eqn:Ehi. remember (k mod 1024)%N as lo eqn:Elo.
        clear Ehi Elo.
        assert (55296 + hi < 65536)%N by lia.
        rewrite <- app_assoc, scanstring_escape_u by done.
        unfold is_high_surrogate.
        destruct (N.leb_spec 55296 (55296 + hi)); [|lia].
        destruct (N.leb_spec (55296 + hi) 56319); [|lia]. cbn [andb].
        pose proof (hex4val_hex4 (56320 + lo) r ltac:(lia)) as Hlow.
        unfold escape_u. change (txt "\u" ++ ?x) with ("\"%char :: "u"%char :: x).
        rewrite <- !app_comm_cons.
        destruct (hex4 _ ++ r) as [|a [|b [|c' [|d r2]]]]; try done.
        destruct Hlow as [Hlow ->]. cbn [code N_of_ascii N_of_digits N.eqb Pos.eqb andb N.add N.mul Pos.add Pos.mul Pos.succ].
        rewrite Hlow.
        unfold is_low_surrogate.
        destruct (N.leb_spec 56320 (56320 + lo)); [|lia].
        destruct (N.leb_spec (56320 + lo) 57343); [|lia]. cbn [andb].
        unfold join_surrogates. do 2 f_equal. lia. }
  destruct (N.ltb_spec c 65536); [|lia].
  rewrite scanstring_escape_u by done.
  unfold is_high_surrogate. by destruct (N.leb_spec 55296 c); [lia|].
Qed.

Lemma scanstring_encode (s : pystr) (rest : wire) :
  wf_pystr s = true ->
  scanstring (concat (escape_char <$> s) ++ dq :: rest) = Some (s, rest).
Proof.
  induction s as [|c s IH]; intros Hwf; [done|].
  apply andb_true_iff in Hwf as [Hc Hs].
  rewrite fmap_cons. cbn [concat].
  rewrite <- app_assoc, scanstring_escape_char by done.
  by rewrite IH.
Qed.

(** *** Integers *)

Definition digits_of (x : N) : wire := txt (pretty_N_go x EmptyString).

Lemma txt_pretty_N_go (x : N) (s : string) :
  txt (pretty_N_go x s) = digits_of x ++ txt s.
Proof.
  revert s. induction (N.lt_wf_0 x) as [x _ IH]; intros s.
  destruct (decide (x = 0%N)) as [->|Hx]; [done|].
  unfold digits_of.
  rewrite (pretty_N_go_step x s), (pretty_N_go_step x EmptyString) by lia.
  rewrite 2!(IH (x `div` 10)%N) by (apply N.div_lt; lia).
  by rewrite <- app_assoc.
Qed.

Lemma digits_of_step (x : N) :
  (0 < x)%N -> digits_of x = digits_of (x `div` 10) ++ [pretty_N_char (x `mod` 10)].
Proof.
  intros Hx. unfold digits_of at 1. rewrite pretty_N_go_step by done.
  by rewrite txt_pretty_N_go.
Qed.

Lemma code_pretty_N_char (r : N) : (r < 10)%N -> code (pretty_N_char r) = (48 + r)%N.
Proof.
  intros Hr.
  assert (forallb (fun r => bool_decide (code (pretty_N_char r) = (48 + r)%N))
            (N.of_nat <$> seq 0 10) = true) as Hall by (by vm_compute).
  rewrite forallb_forall in Hall. specialize (Hall r).
  rewrite bool_decide_eq_true in Hall. apply Hall.
  apply list_elem_of_In, list_elem_of_fmap. exists (N.to_nat r).
  split; [lia|]. apply elem_of_seq. lia.
Qed.

Lemma is_digit_code (c : ascii) : is_digit c = true <-> (48 <= code c <= 57)%N.
Proof. unfold is_digit. rewrite andb_true_iff, !N.leb_le. done. Qed.

Lemma digits_of_digits (x : N) : Forall (fun c => is_digit c = true) (digits_of x).
Proof.
  induction (N.lt_wf_0 x) as [x _ IH].
  destruct (decide (x = 0%N)) as [->|Hx]; [constructor|].
  rewrite digits_of_step by lia. apply Forall_app. split.
  - apply IH, N.div_lt; lia.
  - constructor; [|constructor]. apply is_digit_code.
    assert (x `mod` 10 < 10)%N as Hr by (apply N.mod_lt; lia).
    rewrite code_pretty_N_char by done.
    generalize dependent (x `mod` 10)%N. intros; lia.
Qed.

Lemma digits_val_digits_of (x : N) : digits_val (digits_of x) = Z.of_N x.
Proof.
  induction (N.lt_wf_0 x) as [x _ IH].
  destruct (decide (x = 0%N)) as [->|Hx]; [done|].
  rewrite digits_of_step by lia. unfold digits_val in *.
  rewrite foldl_app. simpl. rewrite IH by (apply N.div_lt; lia).
  assert (x `mod` 10 < 10)%N as Hr by (apply N.mod_lt; lia).
  rewrite code_pretty_N_char by done.
  pose proof (N.Div0.div_mod x 10) as Hdm.
  generalize dependent (x `mod` 10)%N. generalize dependent (x `div` 10)%N.
  intros; lia.
Qed.

Lemma digits_of_head (x : N) :
  (0 < x)%N -> exists d ds, digits_of x = d :: ds /\ is_digit d = true /\ code d <> 48%N.
Proof.
  induction (N.lt_wf_0 x) as [x _ IH]. intros Hx.
  rewrite digits_of_step by done.
  destruct (decide (x `div` 10 = 0)%N) as [Hdiv|Hdiv].
  - rewrite Hdiv. exists (pretty_N_char (x `mod` 10)), [].
    assert (x < 10)%N by (apply N.div_small_iff in Hdiv; lia).
    rewrite N.mod_small by done. split; [done|].
    rewrite is_digit_code, code_pretty_N_char by done. lia.
  - destruct (IH (x `div` 10)%N) as (d & ds & -> & Hd & Hnz);
      [apply N.div_lt; lia|by apply N.neq_0_lt_0|].
    by exists d, (ds ++ [pretty_N_char (x `mod` 10)]).
Qed.

Lemma str_int_zero : str_int 0 = txt "0".
Proof. done. Qed.

Lemma str_int_pos (p : positive) : str_int (Z.pos p) = digits_of (N.pos p).
Proof. done. Qed.

Lemma str_int_neg (p : positive) : str_int (Z.neg p) = "-"%char :: digits_of (N.pos p).
Proof. done. Qed.

(** What may follow a value inside a text written by [dumps]: nothing, a
    comma, or the bracket or brace that closes the container. *)
Definition delimited (rest : wire) : Prop :=
  match rest with
  | [] => True
  | c :: _ => code c = 44%N \/ code c = 93%N \/ code c = 125%N
  end.

(** The text [rest] does not go on with a digit. *)
Definition no_digit_first (rest : wire) : Prop :=
  match rest with
  | [] => True
  | c :: _ => is_digit c = false
  end.

Lemma span_digits_app (ds rest : wire) :
  Forall (fun c => is_digit c = true) ds -> no_digit_first rest ->
  span_digits (ds ++ rest) = (ds, rest).
Proof.
  intros Hds Hrest. induction Hds as [|d ds Hd _ IH]; simpl.
  - destruct rest as [|c rest]; [done|]. simpl in *. by rewrite Hrest.
  - by rewrite Hd, IH.
Qed.

Lemma delimited_no_digit (rest : wire) : delimited rest -> no_digit_first rest.
Proof.
  destruct rest as [|c rest]; [done|]. simpl. intros Hc.
  destruct (is_digit c) eqn:E; [|done]. apply is_digit_code in E. lia.
Qed.

Lemma parse_number_digits (neg : bool) (d : ascii) (ds rest : wire) :
  Forall (fun c => is_digit c = true) (d :: ds) ->
  (code d = 48%N -> ds = []) ->
  delimited rest ->
  parse_number ((if neg then txt "-" else []) ++ d :: ds ++ rest)
  = Some (JInt (if neg then - digits_val (d :: ds) else digits_val (d :: ds)), rest).
Proof.
  intros Hds Hzero Hrest.
  pose proof (Forall_inv Hds) as Hd. pose proof (proj1 (is_digit_code d) Hd) as Hcode.
  assert (Htail : forall ip : wire,
    (let '(frac, r2) :=
       match rest with
       | p :: r' =>
           if (code p =? 46)%N then
             let '(fd, r'') := span_digits r' in
             match fd with [] => ([], rest) | _ => (p :: fd, r'') end
           else ([], rest)
       | [] => ([], rest)
       end in
     let '(ex, r3) :=
       match r2 with
       | e :: r' =>
           if (code e =? 101)%N || (code e =? 69)%N then
             let '(sg, r'') :=
               match r' with
               | g :: x =>
                   if (code g =? 43)%N || (code g =? 45)%N
                   then ([g], x) else ([], r')
               | [] => ([], r')
               end in
             let '(ed, r''') := span_digits r'' in
             match ed with [] => ([], r2) | _ => (e :: sg ++ ed, r''') end
           else ([], r2)
       | [] => ([], r2)
       end in
     match frac, ex with
     | [], [] =>
         Some (JInt (if neg then - digits_val ip else digits_val ip), r3)
     | _, _ =>
         Some (JFloat ((if neg then txt "-" else []) ++ ip ++ frac ++ ex), r3)
     end) = Some (JInt (if neg then - digits_val ip else digits_val ip), rest)).
  { intros ip. destruct rest as [|c rest]; [done|]. simpl in Hrest.
    destruct (N.eqb_spec (code c) 46); [lia|].
    destruct (N.eqb_spec (code c) 101); [lia|].
    destruct (N.eqb_spec (code c) 69); [lia|]. done. }
  assert (Hbody :
    parse_number ((if neg then txt "-" else []) ++ d :: ds ++ rest)
    = (let '(ip, r1) :=
         if (code d =? 48)%N then ([d], ds ++ rest) else span_digits (d :: ds ++ rest) in
       let '(frac, r2) :=
         match r1 with
         | p :: r' =>
             if (code p =? 46)%N then
               let '(fd, r'') := span_digits r' in
               match fd with [] => ([], r1) | _ => (p :: fd, r'') end
             else ([], r1)
         | [] => ([], r1)
         end in
       let '(ex, r3) :=
         match r2 with
         | e :: r' =>
             if (code e =? 101)%N || (code e =? 69)%N then
               let '(sg, r'') :=
                 match r' with
                 | g :: x =>
                     if (code g =? 43)%N || (code g =? 45)%N
                     then ([g], x) else ([], r')
                 | [] => ([], r')
                 end in
               let '(ed, r''') := span_digits r'' in
               match ed with [] => ([], r2) | _ => (e :: sg ++ ed, r''') end
             else ([], r2)
         | [] => ([], r2)
         end in
       match frac, ex with
       | [], [] =>
           Some (JInt (if neg then - digits_val ip else digits_val ip), r3)
       | _, _ =>
           Some (JFloat ((if neg then txt "-" else []) ++ ip ++ frac ++ ex), r3)
       end)).
  { unfold parse_number. destruct neg.
    - change (txt "-" ++ d :: ds ++ rest) with ("-"%char :: d :: ds ++ rest).
      cbv beta iota. change (code "-"%char =? 45)%N with true.
      cbv beta iota. by rewrite Hd.
    - cbn [app]. destruct (N.eqb_spec (code d) 45); [lia|]. by rewrite Hd. }
  rewrite Hbody. clear Hbody.
  destruct (N.eqb_spec (code d) 48) as [Hz|Hnz].
  - rewrite (Hzero Hz). cbn [app]. apply Htail.
  - rewrite (app_comm_cons ds rest d), span_digits_app
      by (done || by apply delimited_no_digit).
    apply Htail.
Qed.

Lemma strip_prefix_mismatch (p0 c : ascii) (p s : wire) :
  p0 <> c -> strip_prefix (p0 :: p) (c :: s) = None.
Proof.
  intros Hne. unfold strip_prefix, is_prefix_of. by rewrite bool_decide_eq_false_2.
Qed.

Lemma parse_atom_number (c : ascii) (s : wire) :
  is_digit c = true \/ code c = 45%N ->
  parse_atom (c :: s) =
  match parse_number (c :: s) with
  | Some (v, r) => POk v r
  | None =>
      match strip_prefix (txt "-Infinity") (c :: s) with
      | Some r => POk (JFloat (txt "-Infinity")) r
      | None => PErr
      end
  end.
Proof.
  intros Hc. unfold parse_atom.
  assert (forall l : ascii, (96 < code l)%N \/ code l = 78%N \/ code l = 73%N ->
            forall p, strip_prefix (l :: p) (c :: s) = None) as Hno.
  { intros l Hl p. apply strip_prefix_mismatch. intros ->.
    destruct Hc as [Hc%is_digit_code|Hc]; lia. }
  change (txt "null") with ("n"%char :: txt "ull").
  change (txt "true") with ("t"%char :: txt "rue").
  change (txt "false") with ("f"%char :: txt "alse").
  change (txt "NaN") with ("N"%char :: txt "aN").
  change (txt "Infinity") with ("I"%char :: txt "nfinity").
  rewrite !Hno by (vm_compute; lia || (left; reflexivity) || tauto).
  done.
Qed.

Lemma parse_atom_int (z : Z) (rest : wire) :
  delimited rest -> parse_atom (str_int z ++ rest) = POk (JInt z) rest.
Proof.
  intros Hrest. destruct z as [|p|p].
  - rewrite str_int_zero. change (txt "0" ++ rest) with ("0"%char :: rest).
    rewrite parse_atom_number by (by left).
    pose proof (parse_number_digits false "0"%char [] rest) as H.
    cbn [app] in H. by rewrite H by (repeat constructor || done).
  - rewrite str_int_pos.
    destruct (digits_of_head (N.pos p)) as (d & ds & Hds & Hd & Hnz); [done|].
    pose proof (digits_of_digits (N.pos p)) as Hall.
    pose proof (digits_val_digits_of (N.pos p)) as Hval.
    rewrite Hds in *. rewrite <- app_comm_cons, parse_atom_number by (by left).
    pose proof (parse_number_digits false d ds rest) as H.
    cbn [app] in H. rewrite H by done. by rewrite Hval.
  - rewrite str_int_neg.
    destruct (digits_of_head (N.pos p)) as (d & ds & Hds & Hd & Hnz); [done|].
    pose proof (digits_of_digits (N.pos p)) as Hall.
    pose proof (digits_val_digits_of (N.pos p)) as Hval.
    rewrite Hds in *. rewrite <- !app_comm_cons, parse_atom_number by (by right).
    pose proof (parse_number_digits true d ds rest) as H.
    cbv beta iota in H.
    change (txt "-" ++ d :: ds ++ rest) with ("-"%char :: d :: ds ++ rest) in H.
    rewrite H by done. by rewrite Hval.
Qed.

(** *** Values *)

(** The values of the round trip: no float, strings of scalar values, and
    no key twice in an object. *)
Fixpoint wf_json (v : json) : bool :=
  match v with
  | JNull | JBool _ | JInt _ => true
  | JFloat _ => false
  | JStr s => wf_pystr s
  | JArr l => forallb wf_json l
  | JObj kvs =>
      forallb (fun '(k, x) => wf_pystr k && wf_json x) kvs
      && bool_decide (NoDup kvs.*1)
  end.

Lemma json_induction (P : json -> Prop) :
  P JNull ->
  (forall b, P (JBool b)) ->
  (forall z, P (JInt z)) ->
  (forall lit, P (JFloat lit)) ->
  (forall s, P (JStr s)) ->
  (forall l, Forall P l -> P (JArr l)) ->
  (forall kvs, Forall (fun kv => P kv.2) kvs -> P (JObj kvs)) ->
  forall v, P v.
Proof.
  intros Hnull Hbool Hint Hfloat Hstr Harr Hobj.
  fix IH 1. intros [| b | z | lit | s | l | kvs].
  - exact Hnull.
  - apply Hbool.
  - apply Hint.
  - apply Hfloat.
  - apply Hstr.
  - apply Harr. induction l as [|x l IHl]; constructor; [apply IH|exact IHl].
  - apply Hobj. induction kvs as [|[k x] kvs IHl]; constructor; [apply IH|exact IHl].
Qed.

(** The elements of an array and the members of an object as [dumps]
    writes them, the first one without the separator. *)
Fixpoint dumps_items (first : bool) (l : list json) : wire :=
  match l with
  | [] => []
  | x :: l' => (if first then [] else txt ", ") ++ dumps x ++ dumps_items false l'
  end.

Fixpoint dumps_members (first : bool) (l : list (pystr * json)) : wire :=
  match l with
  | [] => []
  | (k, x) :: l' =>
      (if first then [] else txt ", ") ++
      encode_basestring_ascii k ++ txt ": " ++ dumps x ++ dumps_members false l'
  end.

Lemma dumps_arr (l : list json) :
  dumps (JArr l) = "["%char :: dumps_items true l ++ txt "]".
Proof. reflexivity. Qed.

Lemma dumps_obj (kvs : list (pystr * json)) :
  dumps (JObj kvs) = "{"%char :: dumps_members true kvs ++ txt "}".
Proof. reflexivity. Qed.

(** A written value starts with a character that is no white space and
    closes no container. *)
Definition starts_value (c : ascii) : Prop :=
  is_ws c = false /\ code c <> 93%N /\ code c <> 125%N.

Lemma dumps_head (v : json) :
  wf_json v = true -> exists c t, dumps v = c :: t /\ starts_value c.
Proof.
  destruct v as [| [] | z | lit | s | l | kvs]; intros Hwf; try done.
  - by exists "n"%char, (txt "ull").
  - by exists "t"%char, (txt "rue").
  - by exists "f"%char, (txt "alse").
  - destruct z as [|p|p].
    + by exists "0"%char, [].
    + destruct (digits_of_head (N.pos p)) as (d & ds & Hds & Hd%is_digit_code & _); [done|].
      exists d, ds. split; [exact Hds|].
      unfold starts_value, is_ws. cbv zeta.
      destruct (N.eqb_spec (code d) 32); [lia|]. destruct (N.eqb_spec (code d) 9); [lia|].
      destruct (N.eqb_spec (code d) 10); [lia|]. destruct (N.eqb_spec (code d) 13); [lia|].
      split; [done|lia].
    + by exists "-"%char, (digits_of (N.pos p)).
  - by eexists dq, _.
  - rewrite dumps_arr. by eexists _, _.
  - rewrite dumps_obj. by eexists _, _.
Qed.

Lemma skip_ws_starts (c : ascii) (s : wire) :
  starts_value c -> skip_ws (c :: s) = c :: s.
Proof. intros [Hc _]. simpl. by rewrite Hc. Qed.

Lemma skip_ws_dumps (v : json) (s : wire) :
  wf_json v = true ->
  skip_ws (" "%char :: dumps v ++ s) = dumps v ++ s
  /\ skip_ws (dumps v ++ s) = dumps v ++ s.
Proof.
  intros (c & t & -> & Hc)%dumps_head. rewrite <- app_comm_cons.
  change (skip_ws (" "%char :: c :: t ++ s)) with (skip_ws (c :: t ++ s)).
  by rewrite skip_ws_starts.
Qed.

Lemma dict_set_fresh (d : list (pystr * json)) (k : pystr) (v : json) :
  k ∉ d.*1 -> dict_set d k v = d ++ [(k, v)].
Proof.
  induction d as [|[k' v'] d IH]; simpl; [done|].
  intros Hk. apply not_elem_of_cons in Hk as [Hne Hk].
  rewrite decide_False by done. by rewrite IH.
Qed.

Lemma py_dict_nodup (kvs : list (pystr * json)) :
  NoDup kvs.*1 -> py_dict kvs = kvs.
Proof.
  unfold py_dict.
  cut (forall d, NoDup (d ++ kvs).*1 ->
         foldl (fun d '(k, v) => dict_set d k v) d kvs = d ++ kvs).
  { intros H Hnd. by apply (H []). }
  induction kvs as [|[k v] kvs IH]; intros d Hnd; simpl.
  { by rewrite app_nil_r. }
  rewrite dict_set_fresh.
  - rewrite IH; rewrite <- app_assoc; done.
  - rewrite fmap_app in Hnd. apply NoDup_app in Hnd as (_ & Hdisj & _).
    intros Hin. apply (Hdisj k Hin). simpl. apply elem_of_cons. by left.
Qed.

Lemma parse_value_atom (f : nat) (c : ascii) (r : wire) :
  code c <> 34%N -> code c <> 123%N -> code c <> 91%N ->
  parse_value (S f) (c :: r) = parse_atom (c :: r).
Proof.
  intros H1 H2 H3. cbn [parse_value].
  destruct (N.eqb_spec (code c) 34); [done|].
  destruct (N.eqb_spec (code c) 123); [done|].
  by destruct (N.eqb_spec (code c) 91).
Qed.

Lemma str_int_head (z : Z) :
  exists c t, str_int z = c :: t /\ (is_digit c = true \/ code c = 45%N).
Proof.
  destruct z as [|p|p].
  - exists "0"%char, []. by split; [|left].
  - destruct (digits_of_head (N.pos p)) as (d & ds & Hds & Hd & _); [done|].
    exists d, ds. by split; [|left].
  - exists "-"%char, (digits_of (N.pos p)). by split; [|right].
Qed.

(** The statement of the round trip for one value. *)
Definition reads_back (v : json) : Prop :=
  wf_json v = true ->
  forall fuel rest,
    (length (dumps v) <= fuel)%nat -> delimited rest ->
    parse_value fuel (dumps v ++ rest) = POk v rest.

Lemma skip_ws_nonws (c : ascii) (s : wire) :
  is_ws c = false -> skip_ws (c :: s) = c :: s.
Proof. intros Hc. simpl. by rewrite Hc. Qed.

Lemma parse_elems_dumps (l : list json) :
  Forall reads_back l ->
  forall x fuel rest,
    reads_back x -> wf_json x = true -> forallb wf_json l = true ->
    (length (dumps x ++ dumps_items false l) < fuel)%nat ->
    parse_elems fuel (dumps x ++ dumps_items false l ++ "]"%char :: rest)
    = POk (x :: l) rest.
Proof.
  induction 1 as [|y l Hy _ IH]; intros x fuel rest Hx Hwx Hwl Hfuel.
  - destruct fuel as [|f]; [lia|]. cbn [parse_elems dumps_items app].
    rewrite app_nil_r in Hfuel.
    rewrite Hx; [|done|lia|by right; left].
    done.
  - destruct fuel as [|f]; [lia|]. cbn [parse_elems].
    apply andb_true_iff in Hwl as [Hwy Hwl].
    cbn [dumps_items] in *.
    change (txt ", ") with [","%char; " "%char] in *.
    rewrite !length_app in Hfuel. cbn [length] in Hfuel.
    rewrite <- !app_assoc. cbn [app].
    rewrite Hx; [|done|lia|by left].
    rewrite skip_ws_nonws by done.
    change (code ","%char =? 93)%N with false.
    change (code ","%char =? 44)%N with true. cbv beta iota.
    rewrite (proj1 (skip_ws_dumps y _ Hwy)).
    rewrite IH; [done|done|done|done|].
    rewrite length_app. lia.
Qed.

Lemma encode_app (k : pystr) (rest : wire) :
  encode_basestring_ascii k ++ rest
  = dq :: concat (escape_char <$> k) ++ dq :: rest.
Proof. unfold encode_basestring_ascii. by rewrite <- app_comm_cons, <- app_assoc. Qed.

Lemma length_encode (k : pystr) : (2 <= length (encode_basestring_ascii k))%nat.
Proof. unfold encode_basestring_ascii. rewrite length_cons, length_app. simpl. lia. Qed.

Lemma parse_members_dumps (kvs : list (pystr * json)) :
  Forall (fun kv => reads_back kv.2) kvs ->
  forall k x fuel rest,
    reads_back x -> wf_pystr k = true -> wf_json x = true ->
    forallb (fun '(k, x) => wf_pystr k && wf_json x) kvs = true ->
    (length (encode_basestring_ascii k ++ txt ": " ++ dumps x
             ++ dumps_members false kvs) < fuel)%nat ->
    parse_members fuel
      (encode_basestring_ascii k ++ txt ": " ++ dumps x
       ++ dumps_members false kvs ++ "}"%char :: rest)
    = POk ((k, x) :: kvs) rest.
Proof.
  induction 1 as [|[k' y] kvs Hy _ IH]; intros k x fuel rest Hx Hwk Hwx Hwl Hfuel.
  - destruct fuel as [|f]; [lia|].
    cbn [dumps_members app] in *. rewrite app_nil_r in Hfuel.
    rewrite !length_app in Hfuel. pose proof (length_encode k).
    change (txt ": ") with [":"%char; " "%char] in *. cbn [length] in Hfuel.
    rewrite encode_app. cbn [parse_members app].
    change (code dq =? 34)%N with true. cbv beta iota.
    rewrite scanstring_encode by done.
    rewrite skip_ws_nonws by done.
    change (code ":"%char =? 58)%N with true. cbv beta iota.
    rewrite (proj1 (skip_ws_dumps x _ Hwx)).
    rewrite Hx; [|done|lia|by right; right].
    done.
  - destruct fuel as [|f]; [lia|].
    apply andb_true_iff in Hwl as [[Hwk' Hwy]%andb_true_iff Hwl].
    cbn [dumps_members] in *.
    rewrite !length_app in Hfuel. pose proof (length_encode k).
    change (txt ": ") with [":"%char; " "%char] in *.
    change (txt ", ") with [","%char; " "%char] in *.
    cbn [length] in Hfuel. rewrite ?length_app in Hfuel. cbn [length] in Hfuel.
    rewrite encode_app. cbn [parse_members app].
    change (code dq =? 34)%N with true. cbv beta iota.
    rewrite scanstring_encode by done.
    rewrite skip_ws_nonws by done.
    change (code ":"%char =? 58)%N with true. cbv beta iota.
    rewrite <- !app_assoc. cbn [app].
    rewrite (proj1 (skip_ws_dumps x _ Hwx)).
    rewrite Hx; [|done|lia|by left].
    rewrite skip_ws_nonws by done.
    change (code ","%char =? 125)%N with false.
    change (code ","%char =? 44)%N with true. cbv beta iota.
    change (skip_ws (" "%char :: ?t)) with (skip_ws t).
    rewrite (encode_app k'). rewrite skip_ws_nonws by done.
    rewrite <- (encode_app k'). rewrite <- ?app_assoc.
    specialize (IH k' y f rest Hy Hwk' Hwy Hwl).
    change (txt ": ") with [":"%char; " "%char] in IH. cbn [app] in IH.
    rewrite IH; [done|]. rewrite length_app. cbn [length]. rewrite length_app. lia.
Qed.

Lemma parse_value_dumps (v : json) : reads_back v.
Proof.
  induction v as [| b | z | lit | s | l IH | kvs IH] using json_induction;
    intros Hwf fuel rest Hfuel Hrest.
  - destruct fuel as [|f]; [simpl in Hfuel; lia|]. done.
  - destruct fuel as [|f]; [destruct b; simpl in Hfuel; lia|]. by destruct b.
  - change (dumps (JInt z)) with (str_int z) in *.
    destruct (str_int_head z) as (c & t & Hz & Hc).
    destruct fuel as [|f]; [rewrite Hz in Hfuel; simpl in Hfuel; lia|].
    rewrite <- parse_atom_int by done. rewrite Hz, <- app_comm_cons.
    apply parse_value_atom; destruct Hc as [Hc%is_digit_code|Hc]; lia.
  - done.
  - change (dumps (JStr s)) with (encode_basestring_ascii s) in *.
    pose proof (length_encode s).
    destruct fuel as [|f]; [lia|].
    rewrite encode_app. cbn [parse_value].
    change (code dq =? 34)%N with true. cbv beta iota.
    by rewrite scanstring_encode.
  - rewrite dumps_arr in *. cbn [length] in Hfuel.
    destruct fuel as [|f]; [lia|].
    rewrite <- app_comm_cons, <- app_assoc.
    change (txt "]" ++ rest) with ("]"%char :: rest).
    cbn [parse_value].
    change (code "["%char =? 34)%N with false.
    change (code "["%char =? 123)%N with false.
    change (code "["%char =? 91)%N with true. cbv beta iota.
    destruct l as [|x l]; [done|].
    cbn [dumps_items app] in *.
    apply andb_true_iff in Hwf as [Hwx Hwl].
    rewrite <- app_assoc.
    rewrite (proj2 (skip_ws_dumps x _ Hwx)).
    destruct (dumps_head x Hwx) as (c & t & Hx & Hws & Hc & _).
    rewrite Hx at 1. rewrite <- app_comm_cons.
    destruct (N.eqb_spec (code c) 93); [done|].
    rewrite app_comm_cons, <- Hx.
    rewrite (parse_elems_dumps l); [done|by inversion IH|by inversion IH|done|done|].
    rewrite length_app in Hfuel. change (length (txt "]")) with 1%nat in Hfuel. lia.
  - rewrite dumps_obj in *. cbn [length] in Hfuel.
    destruct fuel as [|f]; [lia|].
    rewrite <- app_comm_cons, <- app_assoc.
    change (txt "}" ++ rest) with ("}"%char :: rest).
    cbn [parse_value].
    change (code "{"%char =? 34)%N with false.
    change (code "{"%char =? 123)%N with true. cbv beta iota.
    destruct kvs as [|[k x] kvs]; [done|].
    cbn [dumps_members app] in *.
    apply andb_true_iff in Hwf as [Hwf Hnodup%bool_decide_eq_true].
    apply andb_true_iff in Hwf as [[Hwk Hwx]%andb_true_iff Hwl].
    rewrite <- !app_assoc.
    rewrite (encode_app k) at 1. rewrite skip_ws_nonws by done.
    change (code dq =? 125)%N with false. cbv beta iota.
    rewrite <- (encode_app k).
    rewrite (parse_members_dumps kvs); [|by inversion IH|by inversion IH|done..|].
    + by rewrite py_dict_nodup.
    + rewrite length_app in Hfuel. change (length (txt "}")) with 1%nat in Hfuel. lia.
Qed.

(** [json.loads] reads back what [json.dumps] wrote. *)
Lemma loads_dumps (v : json) : wf_json v = true -> loads (dumps v) = Some v.
Proof.
  intros Hwf. unfold loads.
  destruct (dumps_head v Hwf) as (c & t & Hv & Hc).
  rewrite Hv at 2. rewrite skip_ws_starts by done. rewrite <- Hv.
  rewrite <- (app_nil_r (dumps v)) at 2.
  rewrite parse_value_dumps; [done|done| |done].
  unfold fuel_for. lia.
Qed.

(** ** Frames: decoding what [send] wrote *)

(** The text holds a frame marker somewhere. *)
Fixpoint has_marker (s : wire) : bool :=
  match match_marker s with
  | Some _ => true
  | None =>
      match s with
      | [] => false
      | _ :: r => has_marker r
      end
  end.

Lemma re_split_go_no_marker (s : wire) :
  has_marker s = false ->
  forall fuel cur, (length s < fuel)%nat -> re_split_go fuel s cur = [cur ++ s].
Proof.
  induction s as [|c s IH]; intros Hno fuel cur Hfuel.
  - destruct fuel as [|f]; [simpl in Hfuel; lia|]. by rewrite app_nil_r.
  - destruct fuel as [|f]; [lia|]. cbn [re_split_go]. cbn [has_marker] in Hno.
    destruct (match_marker (c :: s)); [done|].
    rewrite IH; [|done|simpl in Hfuel; lia]. by rewrite <- app_assoc.
Qed.

Lemma str_int_nat_digits (n : nat) :
  exists d ds, str_int (Z.of_nat n) = d :: ds
               /\ Forall (fun c => is_digit c = true) (d :: ds).
Proof.
  destruct (Z.of_nat n) as [|p|p] eqn:E; [| |lia].
  - exists "0"%char, []. split; [done|]. by repeat constructor.
  - destruct (digits_of_head (N.pos p)) as (d & ds & Hds & _); [done|].
    exists d, ds. split; [done|]. rewrite <- Hds. apply digits_of_digits.
Qed.

Lemma match_marker_frame (data : wire) : match_marker (frame data) = Some data.
Proof.
  unfold frame, match_marker, py_len.
  destruct (str_int_nat_digits (length data)) as (d & ds & -> & Hds).
  change (strip_prefix (txt "~m~") (txt "~m~" ++ ?x)) with (Some x).
  cbn [mbind option_bind].
  rewrite span_digits_app by done. done.
Qed.

Lemma re_split_frame (data : wire) :
  has_marker data = false -> re_split (frame data) = [[]; data].
Proof.
  intros Hno. unfold re_split.
  cbn [re_split_go]. rewrite match_marker_frame.
  rewrite re_split_go_no_marker; [done|done|].
  unfold frame. rewrite !length_app. simpl. lia.
Qed.

(** The payload that [send] serialises. *)
Definition message (nm : pystr) (ps : list json) : json :=
  JObj [(u "m", JStr nm); (u "p", JArr ps)].

Lemma wf_message (nm : pystr) (ps : list json) :
  wf_pystr nm = true -> forallb wf_json ps = true -> wf_json (message nm ps) = true.
Proof.
  intros Hnm Hps. unfold message. cbn [wf_json forallb].
  rewrite Hnm, Hps.
  change (wf_pystr (u "m")) with true. change (wf_pystr (u "p")) with true.
  cbn [andb]. apply bool_decide_eq_true.
  change ([(u "m", JStr nm); (u "p", JArr ps)].*1) with [u "m"; u "p"].
  apply NoDup_cons. split; [|apply NoDup_singleton].
  intros H%list_elem_of_singleton. discriminate.
Qed.




(** ** Decoding: segments that are not JSON *)

(** The loop over the segments is the loop over a first part, continued on
    the rest from the state the first part leaves, unless the first part
    raised. *)
Lemma parse_events_app (l1 l2 : list wire) (result : list payload) (out : list wire) :
  parse_events (l1 ++ l2) result out =
  match parse_events l1 result out with
  | (out1, Returned r1) => parse_events l2 r1 out1
  | (out1, Raised e) => (out1, Raised e)
  end.
Proof.
  revert result out.
  induction l1 as [|event l1 IH]; intros result out; simpl; [done|].
  destruct (is_prefix_of (txt "~h~") event); [apply IH|].
  destruct (loads event) as [parsed|]; [|apply IH].
  destruct (contains (u "session_id") parsed) as [[]|e]; [apply IH|apply IH|done].
Qed.

(** What the loop returns and prints from a state is what it returns and
    prints from the empty state, after what the state already holds. *)
Lemma parse_events_from (l : list wire) (result : list payload) (out : list wire) :
  parse_events l result out =
  match parse_events l [] [] with
  | (out', Returned r') => (out ++ out', Returned (result ++ r'))
  | (out', Raised e) => (out ++ out', Raised e)
  end.
Proof.
  revert result out.
  induction l as [|event l IH]; intros result out; simpl.
  { by rewrite !app_nil_r. }
  destruct (is_prefix_of (txt "~h~") event).
  { rewrite (IH (result ++ _)), (IH [_]).
    destruct (parse_events l [] []) as [out' [r'|e]]; [|done].
    by rewrite <- !app_assoc. }
  destruct (loads event) as [parsed|].
  - destruct (contains (u "session_id") parsed) as [[]|e].
    + rewrite (IH (result ++ _)), (IH [_]).
      destruct (parse_events l [] []) as [out' [r'|e]]; [|done].
      by rewrite <- !app_assoc.
    + rewrite (IH (result ++ _)), (IH [_]).
      destruct (parse_events l [] []) as [out' [r'|e]]; [|done].
      by rewrite <- !app_assoc.
    + by rewrite app_nil_r.
  - rewrite (IH result (out ++ _)), (IH [] [_]).
    destruct (parse_events l [] []) as [out' [r'|e]]; by rewrite <- !app_assoc.
Qed.

(** A segment on which JSON parsing is attempted and fails. *)
Definition fails_json (segment : wire) : Prop :=
  is_prefix_of (txt "~h~") segment = false /\ loads segment = None.



(** ** Sending *)

(** The client as [connect] leaves it once the session frame has been
    handled, and as [close] leaves it afterwards. *)
Definition handshake_done (c : TradingviewClient) : TradingviewClient :=
  (on_session (u "unauthorized_user_token")
     {| name := JStr (u "session_event"); params := JArr [] |} c).2.


(** The states a client goes through: made, then any of its methods or of
    the steps of [connect] in any order. *)
Inductive lifecycle : TradingviewClient -> Prop :=
| life_new : lifecycle new_client
| life_connect_open h c : lifecycle c -> lifecycle (connect_open h c)
| life_on_session token event c : lifecycle c -> lifecycle (on_session token event c).2
| life_send nm ps c : lifecycle c -> lifecycle (send nm ps c).2
| life_subscribe h c : lifecycle c -> lifecycle (subscribe h c)
| life_unsubscribe h c : lifecycle c -> lifecycle (unsubscribe h c)
| life_close c : lifecycle c -> lifecycle (close c).

(** A connected client holds a socket object. *)
Lemma lifecycle_connected (c : TradingviewClient) :
  lifecycle c -> connected c = true -> websocket c = true.
Proof.
  induction 1 as [|h c _ IH|token event c _ IH|nm ps c _ IH|h c _ IH|h c _ IH|c _ IH];
    intros Hconn.
  - done.
  - done.
  - unfold on_session in *.
    destruct (name event) as [| | | |n| |]; simpl in *; auto.
    destruct (bool_decide _); simpl in *; auto.
    unfold send in *. destruct (websocket c) eqn:Hws; simpl in *; auto.
    specialize (IH Hconn). congruence.
  - unfold send in *. destruct (websocket c) eqn:Hws; simpl in *; auto.
    specialize (IH Hconn). congruence.
  - simpl in *. auto.
  - simpl in *. auto.
  - done.
Qed.


(** ** Fetching nothing *)

(** C10. With an empty symbol list [get_candles] returns the empty candle
    list at once, whatever the client, the amount and the timeframe: the
    client is left as it was, so no handler was registered and no message
    was sent. *)
Theorem get_candles_of_no_symbols (h : hid) (a : option Z) (tf : Timeframe)
    (session : pystr) (c : TradingviewClient) :
  let cfg := {| symbols := []; amount := a; timeframe := tf; chart_session := session |} in
  get_candles h cfg c = (Returned (Finished []), c)
  /\ subscribers (get_candles h cfg c).2 = subscribers c
  /\ writes (get_candles h cfg c).2 = writes c.
Proof. done. Qed.

(** ** The fetch engine *)

Lemma name_is_exclusive (event : TradingviewEvent) (a b : string) :
  u a <> u b -> name_is event a = true -> name_is event b = false.
Proof.
  unfold name_is. destruct (name event); try done.
  intros Hne Ha. apply bool_decide_eq_true in Ha. apply bool_decide_eq_false. congruence.
Qed.

Lemma series_end_not_update (event : TradingviewEvent) :
  series_end event = true -> name_is event "timescale_update" = false.
Proof.
  unfold series_end. intros [H|H]%orb_true_iff;
    (eapply name_is_exclusive; [|exact H]); by vm_compute.
Qed.

(** Python's slice with a stop inside the list is [take]. *)
Lemma slice_to_take {A} (l : list A) (k : Z) :
  0 <= k -> slice_to l k = take (Z.to_nat k) l.
Proof. intros Hk. unfold slice_to. by destruct (Z.leb_spec 0 k); [|lia]. Qed.

Lemma slice_to_resent {A} (fresh cur : list A) :
  slice_to (fresh ++ cur) (py_len (fresh ++ cur) - py_len cur) = fresh.
Proof.
  unfold py_len. rewrite length_app, slice_to_take by lia.
  replace (Z.to_nat _) with (length fresh) by lia.
  by rewrite take_app_length.
Qed.

(** The accumulator after a delivery of the rows [new]. *)
Definition merged (bs : Z) (new cur : list json) : list json :=
  (if py_len new >? bs then slice_to new (py_len new - py_len cur) else new) ++ cur.

(** C1, amended. On a [timescale_update] event that delivers a list of rows
    the handler returns False and changes nothing but the accumulator. A
    delivery of at most [batch_size] rows is put whole in front of the
    accumulator. A delivery of more than [batch_size] rows is first cut to
    [new[:len(new) - len(cur)]], its rows but for as many at the end as the
    accumulator holds; so when such a delivery is fresh rows followed by the
    whole accumulator sent again, the accumulator becomes the fresh rows
    followed by what it held, every row once and in the order delivered. *)
Theorem timescale_update_merge (cfg : FetchConfig) (event : TradingviewEvent)
    (c : TradingviewClient) (st : FetchState) (new : list json)
    (Hname : name_is event "timescale_update" = true)
    (Hrows : delivered event = Returned (JArr new)) :
  let cur := current_sym_candles st in
  let bs := batch_size (amount cfg) in
  handle_event cfg event (c, st)
  = (Returned false, (c, set_current_sym_candles (merged bs new cur) st))
  /\ (py_len new <= bs -> merged bs new cur = new ++ cur)
  /\ (bs < py_len new ->
      merged bs new cur = slice_to new (py_len new - py_len cur) ++ cur)
  /\ (forall fresh, bs < py_len new -> new = fresh ++ cur ->
      merged bs new cur = fresh ++ cur).
Proof.
  intros cur bs. split; [|split; [|split]].
  - unfold handle_event. rewrite Hname. unfold on_timescale_update.
    cbn. rewrite Hrows. done.
  - intros Hle. unfold merged. by destruct (Z.gtb_spec (py_len new) bs); [lia|].
  - intros Hlt. unfold merged. by destruct (Z.gtb_spec (py_len new) bs); [|lia].
  - intros fresh Hlt ->. unfold merged.
    destruct (Z.gtb_spec (py_len (fresh ++ cur)) bs); [|lia].
    by rewrite slice_to_resent.
Qed.

(** The rows kept when a symbol is fully loaded, and the state then. *)
Definition kept_rows (cfg : FetchConfig) (st : FetchState) : list json :=
  if given (amount cfg)
  then slice_to (current_sym_candles st) (default 0 (amount cfg))
  else current_sym_candles st.

Definition next_symbol_frames (cfg : FetchConfig) (i : nat) (sym : pystr) : list wire :=
  [frame (message_data (u "resolve_symbol")
            [JStr (chart_session cfg); sds_sym i; symbol_spec sym]);
   frame (message_data (u "modify_series")
            [JStr (chart_session cfg); JStr (u "sds_1"); series_id i;
             sds_sym i; JStr (str_timeframe (timeframe cfg)); JStr []])].

Lemma symbol_loaded_eq (cfg : FetchConfig) (c : TradingviewClient) (st : FetchState) :
  symbol_loaded cfg (c, st) =
  let st1 := set_current_sym_candles (kept_rows cfg st) st in
  match to_candles (kept_rows cfg st) with
  | Raised e => (Raised e, (c, st1))
  | Returned cs =>
      let st2 := set_all_candles (all_candles st ++ [cs]) st1 in
      if py_len (symbols cfg) - 1 >? Z.of_nat (current_sym_index st) then
        let i := (current_sym_index st + 1)%nat in
        let st3 := set_current_sym_index i (set_current_sym_candles [] st2) in
        match symbols cfg !! i with
        | Some sym =>
            if websocket c then
              (Returned false,
               (set_writes (writes c ++ next_symbol_frames cfg i sym) c,
                set_symbol sym st3))
            else (Raised not_connected, (c, set_symbol sym st3))
        | None => (Raised IndexError, (c, st3))
        end
      else
        match result_future st with
        | None =>
            (Returned true,
             (c, set_result_future
                   (Some (match all_candles st ++ [cs] with x :: _ => x | [] => [] end))
                   st2))
        | Some _ => (Raised InvalidStateError, (c, st2))
        end
  end.
Proof.
  destruct st as [all idx sym cur fut], c as [ws subs conn wr].
  unfold symbol_loaded, kept_rows.
  unfold mbind, M_bind, mret, M_ret, lift, fetch_state, modify, on_client, set_result, send.
  destruct (given (amount cfg)); cbn.
  - destruct (to_candles _) as [cs|e]; cbn; [|done].
    destruct (_ >? _); cbn.
    + destruct (symbols cfg !! _); cbn; [|done].
      destruct ws; cbn; [|done].
      unfold set_writes; cbn. by rewrite <- app_assoc.
    + by destruct fut.
  - destruct (to_candles _) as [cs|e]; cbn; [|done].
    destruct (_ >? _); cbn.
    + destruct (symbols cfg !! _); cbn; [|done].
      destruct ws; cbn; [|done].
      unfold set_writes; cbn. by rewrite <- app_assoc.
    + by destruct fut.
Qed.

Lemma on_series_end_eq (cfg : FetchConfig) (c : TradingviewClient) (st : FetchState) :
  on_series_end cfg (c, st) =
  if another_page (amount cfg) (py_len (current_sym_candles st)) then
    if websocket c
    then (Returned false, (set_writes (writes c ++ [request_more_data cfg]) c, st))
    else (Raised not_connected, (c, st))
  else symbol_loaded cfg (c, st).
Proof.
  destruct c as [ws subs conn wr]. unfold on_series_end.
  unfold mbind, M_bind, mret, M_ret, fetch_state, on_client, send, request_more_data.
  cbn. destruct (another_page _ _); [|done]. by destruct ws.
Qed.

Lemma handle_series_end (cfg : FetchConfig) (event : TradingviewEvent)
    (w : TradingviewClient * FetchState) :
  series_end event = true -> handle_event cfg event w = on_series_end cfg w.
Proof.
  intros H. unfold handle_event. by rewrite (series_end_not_update _ H), H.
Qed.

Lemma batch_size_nonzero (a : option Z) : batch_size a <> 0.
Proof.
  unfold batch_size, MAX_BATCH_SIZE. destruct a as [a|]; [|done].
  destruct (Z.eqb_spec a 0); simpl; [done|]. by destruct (a <? 5000).
Qed.

(** The page condition in the words of the specification: the count is
    positive, an exact multiple of the batch size, and below the cap when a
    cap was given. An amount of [0] is false in Python and counts, like
    [None], as no cap. *)
Definition page_due (a : option Z) (loaded_count : Z) : Prop :=
  0 < loaded_count
  /\ (batch_size a | loaded_count)
  /\ (given a = false \/ exists cap, a = Some cap /\ loaded_count < cap).

Lemma another_page_iff (a : option Z) (n : Z) :
  another_page a n = true <-> page_due a n.
Proof.
  unfold another_page, page_due.
  rewrite !andb_true_iff, orb_true_iff, negb_true_iff, Z.gtb_lt, Z.eqb_eq.
  rewrite (Z.mod_divide n _ (batch_size_nonzero a)).
  assert ((given a = false \/ match a with Some cap => n <? cap | None => false end = true)
          <-> (given a = false \/ exists cap, a = Some cap /\ n < cap)) as ->; [|tauto].
  split; (intros [H|H]; [by left|right]).
  - destruct a as [cap|]; [|done]. exists cap. split; [done|]. by apply Z.ltb_lt.
  - destruct H as (cap & -> & H). by apply Z.ltb_lt.
Qed.

(** C3. On a [series_completed] or [symbol_error] event, with the socket
    open, the handler returns False having queued exactly the
    [request_more_data] message for the chart session, [sds_1] and the batch
    size, if and only if a page is due: the accumulated row count is
    positive, is an exact multiple of the batch size, and no cap was given or
    the count is below the cap. When a page is due nothing else changes; when
    none is due the handler does what it does for a fully loaded symbol, and
    the candles of the kept rows, if they convert, are appended to the
    results. *)
Theorem request_more_data_iff_page_due (cfg : FetchConfig) (event : TradingviewEvent)
    (c : TradingviewClient) (st : FetchState)
    (Hevent : series_end event = true) (Hsocket : websocket c = true) :
  let n := py_len (current_sym_candles st) in
  let r := handle_event cfg event (c, st) in
  (page_due (amount cfg) n <->
   r.1 = Returned false /\ writes r.2.1 = writes c ++ [request_more_data cfg])
  /\ (page_due (amount cfg) n ->
      r = (Returned false, (set_writes (writes c ++ [request_more_data cfg]) c, st)))
  /\ (~ page_due (amount cfg) n ->
      r = symbol_loaded cfg (c, st)
      /\ forall cs, to_candles (kept_rows cfg st) = Returned cs ->
                    all_candles r.2.2 = all_candles st ++ [cs]).
Proof.
  intros n r. subst r. rewrite (handle_series_end _ _ _ Hevent), on_series_end_eq, Hsocket.
  fold n. rewrite <- another_page_iff.
  destruct (another_page (amount cfg) n) eqn:Hpage.
  - split; [|split]; [|done|done]. split; [|done]. intros _. by destruct c.
  - split; [|split]; [|done|].
    + split; [done|]. intros [Hr Hw]. exfalso.
      rewrite symbol_loaded_eq in Hr, Hw.
      destruct (to_candles _) as [cs|e]; [|done]. cbn zeta in Hr, Hw.
      destruct (_ >? _).
      * destruct (symbols cfg !! _); [|done]. rewrite Hsocket in Hw. cbn in Hw.
        apply app_inv_head in Hw. discriminate.
      * by destruct (result_future st).
    + intros _. split; [done|]. intros cs Hcs.
      rewrite symbol_loaded_eq, Hcs, Hsocket. cbn zeta.
      destruct (_ >? _).
      * by destruct (symbols cfg !! _).
      * by destruct (result_future st).
Qed.

Lemma to_candles_length (rows : list json) (cs : list Candle) :
  to_candles rows = Returned cs -> length cs = length rows.
Proof.
  revert cs. induction rows as [|row rows IH]; intros cs; simpl.
  { by intros [= <-]. }
  destruct (to_candle row); [|done].
  destruct (to_candles rows) as [xs|]; [|done].
  intros [= <-]. simpl. by rewrite (IH xs).
Qed.

(** C5. With a positive amount cap [a], when a [series_completed] or
    [symbol_error] event finds no page due, the rows converted to candles are
    the first [a] rows of the accumulator, its front: exactly [a] rows when
    the accumulator holds at least that many, all of them otherwise. The
    candle list appended to the results has one candle per kept row; if a
    kept row cannot be converted the handler raises and leaves the
    accumulator cut to the kept rows. *)
Theorem amount_truncates_accumulator (cfg : FetchConfig) (event : TradingviewEvent)
    (c : TradingviewClient) (st : FetchState) (a : Z)
    (Hevent : series_end event = true)
    (Hamount : amount cfg = Some a) (Hpositive : 0 < a)
    (Hloaded : ~ page_due (amount cfg) (py_len (current_sym_candles st))) :
  let cur := current_sym_candles st in
  let kept := take (Z.to_nat a) cur in
  let r := handle_event cfg event (c, st) in
  kept_rows cfg st = kept
  /\ (exists dropped, cur = kept ++ dropped)
  /\ py_len kept = Z.min a (py_len cur)
  /\ (a <= py_len cur -> py_len kept = a)
  /\ match to_candles kept with
     | Returned cs =>
         all_candles r.2.2 = all_candles st ++ [cs] /\ py_len cs = py_len kept
     | Raised e => r = (Raised e, (c, set_current_sym_candles kept st))
     end.
Proof.
  intros cur kept r.
  assert (Hkept : kept_rows cfg st = kept).
  { unfold kept_rows, given. rewrite Hamount. simpl.
    destruct (Z.eqb_spec a 0); [lia|]. simpl. by rewrite slice_to_take by lia. }
  assert (Hlen : py_len kept = Z.min a (py_len cur)).
  { unfold kept, py_len. rewrite length_take. lia. }
  split; [done|]. split; [exists (drop (Z.to_nat a) cur); symmetry; apply take_drop|].
  split; [done|]. split; [lia|].
  subst r. rewrite (handle_series_end _ _ _ Hevent), on_series_end_eq.
  destruct (another_page _ _) eqn:Hpage; [by apply another_page_iff in Hpage|].
  rewrite symbol_loaded_eq, Hkept.
  destruct (to_candles kept) as [cs|e] eqn:Hcs; [|done]. cbn zeta.
  split; [|unfold py_len; by rewrite (to_candles_length _ _ Hcs)].
  destruct (_ >? _).
  - destruct (symbols cfg !! _); [|done]. by destruct (websocket c).
  - by destruct (result_future st).
Qed.

Lemma on_timescale_update_eq (cfg : FetchConfig) (event : TradingviewEvent)
    (c : TradingviewClient) (st : FetchState) :
  on_timescale_update cfg event (c, st) =
  match delivered event with
  | Raised e => (Raised e, (c, st))
  | Returned new_candles =>
      match merge_rows new_candles (batch_size (amount cfg)) (current_sym_candles st) with
      | Raised e => (Raised e, (c, st))
      | Returned rows => (Returned false, (c, set_current_sym_candles rows st))
      end
  end.
Proof.
  unfold on_timescale_update, mbind, M_bind, mret, M_ret, lift, fetch_state, modify.
  cbn. destruct (delivered event) as [new_candles|e]; [|done].
  by destruct (merge_rows _ _ _).
Qed.

(** The candle list that a step makes when it finds the current symbol
    fully loaded. *)
Definition loads_symbol (cfg : FetchConfig) (event : TradingviewEvent) (st : FetchState)
  : option (list Candle) :=
  if series_end event && negb (another_page (amount cfg) (py_len (current_sym_candles st)))
  then match to_candles (kept_rows cfg st) with
       | Returned cs => Some cs
       | Raised _ => None
       end
  else None.

(** [fetching cfg st first]: the handler of a [get_candles] call on a
    non-empty symbol list is still registered, its variables are [st], and
    [first] is the candle list that was made when the first symbol was found
    fully loaded, if that has happened. *)
Inductive fetching (cfg : FetchConfig) : FetchState -> option (list Candle) -> Prop :=
| fetching_start sym rest :
    symbols cfg = sym :: rest ->
    fetching cfg (first_state sym) None
| fetching_step st first event c r c' st' :
    fetching cfg st first ->
    handle_event cfg event (c, st) = (r, (c', st')) ->
    r <> Returned true ->
    fetching cfg st'
      (match first with
       | Some x => Some x
       | None => loads_symbol cfg event st
       end).

Definition fetch_invariant (cfg : FetchConfig) (st : FetchState)
    (first : option (list Candle)) : Prop :=
  length (all_candles st) = current_sym_index st
  /\ (current_sym_index st < length (symbols cfg))%nat
  /\ result_future st = None
  /\ match first with
     | None => current_sym_index st = 0%nat
     | Some x => exists others, all_candles st = x :: others
     end.

Lemma fetching_invariant (cfg : FetchConfig) (st : FetchState)
    (first : option (list Candle)) :
  fetching cfg st first -> fetch_invariant cfg st first.
Proof.
  induction 1 as [sym rest Hsyms|st first event c r c' st' _ IH Hstep Hr].
  { unfold fetch_invariant. rewrite Hsyms. simpl. repeat split; lia. }
  destruct IH as (Hall & Hidx & Hfut & Hfirst).
  unfold handle_event in Hstep.
  destruct (name_is event "timescale_update") eqn:Hupd.
  { assert (series_end event = false) as Hend.
    { destruct (series_end event) eqn:E; [|done].
      apply series_end_not_update in E. congruence. }
    assert (loads_symbol cfg event st = None) as ->.
    { unfold loads_symbol. by rewrite Hend. }
    rewrite on_timescale_update_eq in Hstep.
    assert (all_candles st' = all_candles st
            /\ current_sym_index st' = current_sym_index st
            /\ result_future st' = result_future st) as (E1 & E2 & E3).
    { destruct (delivered event); [|by injection Hstep as _ _ <-].
      destruct (merge_rows _ _ _); by injection Hstep as _ _ <-. }
    unfold fetch_invariant. rewrite E1, E2, E3. by destruct first. }
  destruct (series_end event) eqn:Hend; cycle 1.
  { assert (loads_symbol cfg event st = None) as ->.
    { unfold loads_symbol. by rewrite Hend. }
    injection Hstep as _ _ <-. unfold fetch_invariant. by destruct first. }
  rewrite on_series_end_eq in Hstep. unfold loads_symbol. rewrite Hend.
  destruct (another_page _ _) eqn:Hpage; simpl.
  { assert (st' = st) as ->.
    { destruct (websocket c); by injection Hstep as _ _ <-. }
    unfold fetch_invariant. by destruct first. }
  rewrite symbol_loaded_eq in Hstep.
  destruct (to_candles _) as [cs|e].
  2:{ injection Hstep as _ _ <-. unfold fetch_invariant. simpl. by destruct first. }
  cbn zeta in Hstep. destruct (Z.gtb_spec (py_len (symbols cfg) - 1) (Z.of_nat (current_sym_index st)))
    as [Hmore|Hlast].
  - unfold py_len in Hmore.
    destruct (symbols cfg !! _) as [sym|] eqn:Hsym.
    2:{ apply lookup_ge_None in Hsym. lia. }
    assert (st' = set_symbol sym (set_current_sym_index (current_sym_index st + 1)
              (set_current_sym_candles []
                 (set_all_candles (all_candles st ++ [cs])
                    (set_current_sym_candles (kept_rows cfg st) st))))) as ->.
    { destruct (websocket c); by injection Hstep as _ _ <-. }
    unfold fetch_invariant. simpl. rewrite length_app. simpl.
    repeat split; [lia|lia|done|].
    destruct first as [x|].
    + destruct Hfirst as [others ->]. by eexists.
    + destruct (all_candles st); [by eexists|]. simpl in Hall. lia.
  - rewrite Hfut in Hstep. by injection Hstep as <- _ _.
Qed.

(** The event ends the series of the last symbol and no further page is due. *)
Definition terminal_step (cfg : FetchConfig) (event : TradingviewEvent) (st : FetchState)
  : Prop :=
  series_end event = true
  /\ ~ page_due (amount cfg) (py_len (current_sym_candles st))
  /\ S (current_sym_index st) = length (symbols cfg).

(** C4. While the handler of a fetch on a non-empty symbol list is
    registered, it returns True on an event exactly when the event is
    [series_completed] or [symbol_error], no page is due, the current symbol
    is the last one, and the kept rows convert to candles. On that step the
    client is untouched, the candle list of the last symbol is appended to
    the results and the pending result is resolved with the candle list of
    the first symbol: the list [first] recorded when the first symbol was
    loaded, or the list just made when the list has one symbol only. On every
    other step the pending result stays unresolved. *)
Theorem last_symbol_resolves_with_first (cfg : FetchConfig) (st : FetchState)
    (first : option (list Candle)) (event : TradingviewEvent) (c : TradingviewClient)
    (Hfetching : fetching cfg st first) :
  let r := handle_event cfg event (c, st) in
  (first = None <-> current_sym_index st = 0%nat)
  /\ (r.1 = Returned true <->
      terminal_step cfg event st
      /\ exists cs, to_candles (kept_rows cfg st) = Returned cs)
  /\ (forall cs,
        terminal_step cfg event st ->
        to_candles (kept_rows cfg st) = Returned cs ->
        r.1 = Returned true
        /\ r.2.1 = c
        /\ all_candles r.2.2 = all_candles st ++ [cs]
        /\ result_future r.2.2 = Some (default cs first))
  /\ (r.1 <> Returned true -> result_future r.2.2 = None).
Proof.
  intros r. destruct (fetching_invariant _ _ _ Hfetching) as (Hall & Hidx & Hfut & Hfirst).
  assert (Hnone : first = None <-> current_sym_index st = 0%nat).
  { destruct first as [x|]; [|done]. destruct Hfirst as [others Hx].
    rewrite Hx in Hall. simpl in Hall. split; [done|lia]. }
  assert (Hterminal : forall cs,
             terminal_step cfg event st ->
             to_candles (kept_rows cfg st) = Returned cs ->
             r = (Returned true,
                  (c, set_result_future (Some (default cs first))
                        (set_all_candles (all_candles st ++ [cs])
                           (set_current_sym_candles (kept_rows cfg st) st))))).
  { intros cs (Hend & Hpage & Hlast) Hcs. subst r.
    rewrite (handle_series_end _ _ _ Hend), on_series_end_eq.
    destruct (another_page _ _) eqn:E; [by apply another_page_iff in E|].
    rewrite symbol_loaded_eq, Hcs. cbn zeta.
    destruct (Z.gtb_spec (py_len (symbols cfg) - 1) (Z.of_nat (current_sym_index st)));
      [unfold py_len in *; lia|].
    rewrite Hfut. do 3 f_equal.
    destruct first as [x|]; simpl.
    - destruct Hfirst as [others ->]. done.
    - destruct (all_candles st); [done|]. simpl in Hall. lia. }
  split; [done|]. split; [|split].
  - split.
    + subst r. unfold handle_event.
      destruct (name_is event "timescale_update") eqn:Hupd.
      { rewrite on_timescale_update_eq. destruct (delivered event); [|done].
        by destruct (merge_rows _ _ _). }
      destruct (series_end event) eqn:Hend; [|done].
      rewrite on_series_end_eq.
      destruct (another_page _ _) eqn:Hpage; [by destruct (websocket c)|].
      rewrite symbol_loaded_eq.
      destruct (to_candles _) as [cs|e]; [|done]. cbn zeta.
      destruct (Z.gtb_spec (py_len (symbols cfg) - 1) (Z.of_nat (current_sym_index st)))
        as [Hmore|Hlast].
      { destruct (symbols cfg !! _); [|done]. by destruct (websocket c). }
      intros _. split; [|by exists cs]. split; [done|]. split.
      * rewrite <- another_page_iff. congruence.
      * unfold py_len in Hlast. lia.
    + intros [Hterm [cs Hcs]]. by rewrite (Hterminal cs Hterm Hcs).
  - intros cs Hterm Hcs. by rewrite (Hterminal cs Hterm Hcs).
  - intros Hr. subst r. unfold handle_event in *.
    destruct (name_is event "timescale_update") eqn:Hupd.
    { rewrite on_timescale_update_eq. destruct (delivered event); [|done].
      by destruct (merge_rows _ _ _). }
    destruct (series_end event) eqn:Hend; [|done].
    rewrite on_series_end_eq in *.
    destruct (another_page _ _) eqn:Hpage; [by destruct (websocket c)|].
    rewrite symbol_loaded_eq in *.
    destruct (to_candles _) as [cs|e]; [|done]. cbn zeta in *.
    destruct (_ >? _).
    { destruct (symbols cfg !! _); [|done]. by destruct (websocket c). }
    by rewrite Hfut in Hr.
Qed.

(** ** Worked inputs *)

Definition example_row (t : Z) : json :=
  JObj [(u "i", JInt t);
        (u "v", JArr [JInt t; JInt 1; JInt 2; JInt 3; JInt 4; JInt 5])].

Definition timescale_update (rows : list json) : TradingviewEvent :=
  {| name := JStr (u "timescale_update");
     params := JArr [JStr (u "cs_example");
                     JObj [(u "sds_1", JObj [(u "s", JArr rows)])]] |}.

Definition series_completed : TradingviewEvent :=
  {| name := JStr (u "series_completed");
     params := JArr [JStr (u "cs_example"); JStr (u "sds_1")] |}.

Definition example_cfg (syms : list pystr) (a : option Z) : FetchConfig :=
  {| symbols := syms; amount := a; timeframe := TfInt 60;
     chart_session := u "cs_example" |}.

Definition opened_client : TradingviewClient := set_websocket true new_client.

(** The handler run on a list of events, one after the other. *)
Definition deliver (cfg : FetchConfig) (events : list TradingviewEvent)
    (w : TradingviewClient * FetchState) : TradingviewClient * FetchState :=
  foldl (fun w event => (handle_event cfg event w).2) w events.

(** C1, as stated, fails on the example of the specification: rows 10 to 1
    are delivered, then rows 12 to 3. Without a cap (pages of 5000) nothing
    is cut and rows 10 to 3 are in the accumulator twice; with a cap of 5
    (pages of 5) the second delivery is cut to nothing and rows 12 and 11
    are lost. Neither is the list of the rows 12 to 1, each once. *)
Lemma overlapping_pages_not_merged_once :
  let first := example_row <$> [10; 9; 8; 7; 6; 5; 4; 3; 2; 1] in
  let second := example_row <$> [12; 11; 10; 9; 8; 7; 6; 5; 4; 3] in
  let once := example_row <$> [12; 11; 10; 9; 8; 7; 6; 5; 4; 3; 2; 1] in
  let accumulated a :=
    current_sym_candles
      (deliver (example_cfg [u "A"] a)
         [timescale_update first; timescale_update second]
         (opened_client, first_state (u "A"))).2 in
  accumulated None = second ++ first
  /\ ~ NoDup (accumulated None)
  /\ accumulated None <> once
  /\ accumulated (Some 5) = first
  /\ accumulated (Some 5) <> once.
Proof.
  cbv beta zeta.
  assert (H1 : current_sym_candles
      (deliver (example_cfg [u "A"] None)
         [timescale_update (example_row <$> [10; 9; 8; 7; 6; 5; 4; 3; 2; 1]);
          timescale_update (example_row <$> [12; 11; 10; 9; 8; 7; 6; 5; 4; 3])]
         (opened_client, first_state (u "A"))).2
      = (example_row <$> [12; 11; 10; 9; 8; 7; 6; 5; 4; 3])
        ++ (example_row <$> [10; 9; 8; 7; 6; 5; 4; 3; 2; 1])) by (by vm_compute).
  assert (H2 : current_sym_candles
      (deliver (example_cfg [u "A"] (Some 5))
         [timescale_update (example_row <$> [10; 9; 8; 7; 6; 5; 4; 3; 2; 1]);
          timescale_update (example_row <$> [12; 11; 10; 9; 8; 7; 6; 5; 4; 3])]
         (opened_client, first_state (u "A"))).2
      = example_row <$> [10; 9; 8; 7; 6; 5; 4; 3; 2; 1]) by (by vm_compute).
  rewrite H1, H2. split; [done|]. split; [|split; [|split]].
  - intros Hdup. apply NoDup_app in Hdup as (_ & Hdisjoint & _).
    apply (Hdisjoint (example_row 10)); simpl; rewrite !elem_of_cons; tauto.
  - intros H. by apply (f_equal length) in H.
  - done.
  - intros H. by apply (f_equal length) in H.
Qed.

(** Pages of two rows, rows 2 and 1 accumulated: a delivery of rows 4 to 1
    leaves rows 4 to 1, each once. *)
Lemma timescale_update_merge_witness :
  let cfg := example_cfg [u "A"] (Some 2) in
  let st := set_current_sym_candles (example_row <$> [2; 1]) (first_state (u "A")) in
  let event := timescale_update (example_row <$> [4; 3; 2; 1]) in
  name_is event "timescale_update" = true
  /\ delivered event = Returned (JArr (example_row <$> [4; 3; 2; 1]))
  /\ handle_event cfg event (opened_client, st)
     = (Returned false,
        (opened_client,
         set_current_sym_candles (example_row <$> [4; 3; 2; 1]) st)).
Proof.
  cbv zeta. split; [reflexivity|]. split; [reflexivity|].
  exact (proj1 (timescale_update_merge
                  (example_cfg [u "A"] (Some 2))
                  (timescale_update (example_row <$> [4; 3; 2; 1]))
                  opened_client
                  (set_current_sym_candles (example_row <$> [2; 1]) (first_state (u "A")))
                  (example_row <$> [4; 3; 2; 1]) eq_refl eq_refl)).
Defined.

(** Without a cap and with 5000 rows accumulated, the next page is asked
    for. *)
Lemma request_more_data_iff_page_due_witness :
  let cfg := example_cfg [u "A"] None in
  let st := set_current_sym_candles (replicate 5000 (example_row 1)) (first_state (u "A")) in
  series_end series_completed = true
  /\ websocket opened_client = true
  /\ (handle_event cfg series_completed (opened_client, st)).1 = Returned false
  /\ writes (handle_event cfg series_completed (opened_client, st)).2.1
     = [request_more_data cfg].
Proof.
  cbv zeta. split; [reflexivity|]. split; [reflexivity|].
  apply (proj1 (proj1 (request_more_data_iff_page_due
                  (example_cfg [u "A"] None) series_completed opened_client
                  (set_current_sym_candles (replicate 5000 (example_row 1))
                     (first_state (u "A")))
                  eq_refl eq_refl))).
  split; [by vm_compute|]. split; [|by left].
  exists 1. by vm_compute.
Defined.

(** A cap of 3 and 5 accumulated rows: rows 5, 4 and 3 are kept. *)
Lemma amount_truncates_accumulator_witness :
  let cfg := example_cfg [u "A"] (Some 3) in
  let st := set_current_sym_candles (example_row <$> [5; 4; 3; 2; 1]) (first_state (u "A")) in
  series_end series_completed = true
  /\ amount cfg = Some 3
  /\ 0 < 3
  /\ ~ page_due (amount cfg) (py_len (current_sym_candles st))
  /\ kept_rows cfg st = example_row <$> [5; 4; 3]
  /\ py_len (kept_rows cfg st) = 3.
Proof.
  intros cfg st.
  assert (Hloaded : ~ page_due (amount cfg) (py_len (current_sym_candles st))).
  { intros (_ & [k Hk] & _). change (5 = k * 3) in Hk. lia. }
  split; [reflexivity|]. split; [reflexivity|]. split; [lia|]. split; [exact Hloaded|].
  destruct (amount_truncates_accumulator cfg series_completed opened_client st
              3 eq_refl eq_refl ltac:(lia) Hloaded) as (Hkept & _ & _ & Hexact & _).
  split; [exact Hkept|]. rewrite Hkept. apply Hexact. by vm_compute.
Defined.

(** The candles of the two rows [2; 1] of the first symbol. *)
Definition example_candle (t : Z) : Candle :=
  {| Candle.timestamp := JInt t; Candle.open := JInt 1; Candle.high := JInt 2;
     Candle.low := JInt 3; Candle.close := JInt 4; Candle.volume := JInt 5 |}.

(** Two symbols: when the second one is loaded the result is the candle list
    of the first. *)
Lemma last_symbol_resolves_with_first_witness :
  let cfg := example_cfg [u "A"; u "B"] None in
  let before :=
    deliver cfg
      [timescale_update (example_row <$> [2; 1]); series_completed;
       timescale_update (example_row <$> [9])]
      (opened_client, first_state (u "A")) in
  let r := handle_event cfg series_completed before in
  fetching cfg before.2 (Some (example_candle <$> [2; 1]))
  /\ r.1 = Returned true
  /\ result_future r.2.2 = Some (example_candle <$> [2; 1])
  /\ all_candles r.2.2 = [example_candle <$> [2; 1]; example_candle <$> [9]].
Proof.
  intros cfg before r.
  pose proof (fetching_start cfg (u "A") [u "B"] eq_refl) as F0.
  pose proof (fetching_step cfg _ _ (timescale_update (example_row <$> [2; 1]))
                opened_client _ _ _ F0 eq_refl ltac:(discriminate)) as F1.
  pose proof (fetching_step cfg _ _ series_completed
                opened_client _ _ _ F1 eq_refl ltac:(discriminate)) as F2.
  pose proof (fetching_step cfg _ _ (timescale_update (example_row <$> [9]))
                opened_client _ _ _ F2 eq_refl ltac:(discriminate)) as F3.
  split; [exact F3|].
  destruct (last_symbol_resolves_with_first cfg _ _ series_completed before.1 F3)
    as (_ & _ & Hresolve & _).
  destruct (Hresolve (example_candle <$> [9])) as (H1 & _ & H2 & H3).
  - split; [reflexivity|]. split; [|reflexivity].
    intros (Hpos & [k Hk] & _). change (1 = k * 5000) in Hk. lia.
  - reflexivity.
  - split; [exact H1|]. split; [exact H3|exact H2].
Defined.

(** ** The subscriber registry *)

Section Publish.
Context {S : Type}.
Variable call : hid -> TradingviewEvent -> @world S -> outcome bool * @world S.
Variable event : TradingviewEvent.
Hypothesis Hquiet : leaves_registry call event.

(** The invocations of the handlers [pending], one after the other. *)
Fixpoint invoke_all (pending : list hid) (w : @world S)
  : list (hid * outcome bool) * @world S :=
  match pending with
  | [] => ([], w)
  | h :: rest =>
      let '(r, w') := call h event w in
      let '(calls, w'') := invoke_all rest w' in
      ((h, r) :: calls, w'')
  end.

Definition raised (calls : list (hid * outcome bool)) : list exn :=
  omap (fun '(_, r) => match r with Raised e => Some e | Returned _ => None end) calls.

Lemma invoke_all_registry (pending : list hid) (w : @world S) :
  subscribers (invoke_all pending w).2.1 = subscribers w.1.
Proof.
  revert w. induction pending as [|h rest IH]; intros w; simpl; [done|].
  specialize (Hquiet h w). destruct (call h event w) as [r w'].
  specialize (IH w'). destruct (invoke_all rest w') as [calls w''].
  simpl in *. congruence.
Qed.

Lemma invoke_all_handlers (pending : list hid) (w : @world S) :
  (invoke_all pending w).1.*1 = pending.
Proof.
  revert w. induction pending as [|h rest IH]; intros w; simpl; [done|].
  destruct (call h event w) as [r w']. specialize (IH w').
  destruct (invoke_all rest w') as [calls w'']. simpl in *. by f_equal.
Qed.

Lemma notify_loop_quiet (pending handlers_to_remove : list hid)
    (calls : list (hid * outcome bool)) (reported : list exn) (w : @world S) :
  notify_loop call event (subscribers w.1) pending handlers_to_remove calls reported w =
  let '(calls', w') := invoke_all pending w in
  {| p_world := discard_all (handlers_to_remove ++ asked_removal calls') w';
     p_calls := calls ++ calls';
     p_reported := reported ++ raised calls';
     p_end := Completed |}.
Proof.
  revert handlers_to_remove calls reported w.
  induction pending as [|h rest IH]; intros handlers_to_remove calls reported w.
  - simpl. unfold iterator_check. rewrite decide_True by done.
    by rewrite !app_nil_r.
  - simpl. unfold iterator_check. rewrite decide_True by done.
    pose proof (Hquiet h w) as Hsame.
    destruct (call h event w) as [[b|e] w']; simpl in Hsame.
    + rewrite <- Hsame, IH. destruct (invoke_all rest w') as [calls' w''].
      rewrite <- !app_assoc. simpl. destruct b; simpl; by rewrite <- ?app_assoc.
    + rewrite <- Hsame, IH. destruct (invoke_all rest w') as [calls' w''].
      rewrite <- !app_assoc. done.
Qed.

Lemma discard_all_subscribers (hs : list hid) (w : @world S) :
  subscribers (discard_all hs w).1 = subscribers w.1 ∖ list_to_set hs.
Proof.
  unfold discard_all. simpl. generalize (w.1). clear w.
  induction hs as [|h hs IH]; intros c; simpl.
  - by rewrite difference_empty_L.
  - rewrite IH. unfold unsubscribe. simpl.
    by rewrite difference_difference_l_L.
Qed.

Lemma publish_quiet (w : @world S) :
  let r := _notify_subscribers call event w in
  p_end r = Completed
  /\ (p_calls r).*1 = elements (subscribers w.1)
  /\ p_reported r = raised (p_calls r)
  /\ subscribers (p_world r).1
     = subscribers w.1 ∖ list_to_set (asked_removal (p_calls r)).
Proof.
  unfold _notify_subscribers. rewrite notify_loop_quiet.
  pose proof (invoke_all_handlers (elements (subscribers w.1)) w) as Hh.
  pose proof (invoke_all_registry (elements (subscribers w.1)) w) as Hr.
  destruct (invoke_all _ w) as [calls w']. cbn [fst snd] in Hh, Hr.
  cbn [p_end p_calls p_reported p_world app].
  split; [done|]. split; [done|]. split; [done|].
  by rewrite discard_all_subscribers, Hr.
Qed.
End Publish.

Lemma NoDup_fst_functional {A B} (l : list (A * B)) (x : A) (y1 y2 : B) :
  NoDup l.*1 -> (x, y1) ∈ l -> (x, y2) ∈ l -> y1 = y2.
Proof.
  induction l as [|[a b] l IH]; simpl; intros Hnd H1 H2.
  { by apply elem_of_nil in H1. }
  apply NoDup_cons in Hnd as [Hnotin Hnd].
  apply elem_of_cons in H1 as [[= -> ->]|H1], H2 as [[= <-]|H2]; try done.
  - destruct Hnotin. apply list_elem_of_fmap. by exists (a, y2).
  - destruct Hnotin. apply list_elem_of_fmap. by exists (x, y1).
  - by apply IH.
Qed.



(** Three handlers for the worked publishes: handler 2 raises, handler 3
    asks to be removed, and none of them touches the registry. *)
Definition example_call (h : hid) (event : TradingviewEvent) (w : @world unit)
  : outcome bool * @world unit :=
  (if (h =? 2)%positive then Raised KeyError else Returned (h =? 3)%positive, w).

(** Handlers of which handler 3 calls its own unsubscribe closure. *)
Definition leaving_call (h : hid) (event : TradingviewEvent) (w : @world unit)
  : outcome bool * @world unit :=
  (Returned false, (if (h =? 3)%positive then unsubscribe 3%positive w.1 else w.1, w.2)).

Definition registered (hs : list hid) : @world unit :=
  (foldl (fun c h => subscribe h c) (set_websocket true new_client) hs, tt).

Definition some_event : TradingviewEvent :=
  {| name := JStr (u "quote_completed"); params := JArr [] |}.




(** * Further properties of the code *)

(** The properties below are read off the code alone. They cover, besides
    the functions above, the read loop [_handle_messages], the token that
    [connect] scrapes from the page, the cap that [main] of [index.py]
    passes to the fetch and the file name that [store_candles] of
    [lib/storeCandles.py] builds. *)

(** ** The frame codec, further *)

Lemma span_digits_spec (s ds r : wire) :
  span_digits s = (ds, r) ->
  s = ds ++ r /\ Forall (fun c => is_digit c = true) ds /\ no_digit_first r.
Proof.
  revert ds r. induction s as [|c s IH]; intros ds r; simpl.
  - by intros [= <- <-].
  - destruct (is_digit c) eqn:Hc.
    + destruct (span_digits s) as [ds' r'] eqn:E. intros [= <- <-].
      destruct (IH _ _ eq_refl) as (-> & Hds & Hr).
      split; [done|]. split; [by constructor|done].
    + intros [= <- <-]. split; [done|]. split; [constructor|done].
Qed.

(** A marker with any run of digits, as the server may write it. *)
Lemma match_marker_digits (ds rest : wire) :
  ds <> [] -> Forall (fun c => is_digit c = true) ds ->
  match_marker (txt "~m~" ++ ds ++ txt "~m~" ++ rest) = Some rest.
Proof.
  intros Hne Hds. unfold match_marker.
  change (strip_prefix (txt "~m~") (txt "~m~" ++ ?x)) with (Some x).
  cbn [mbind option_bind].
  rewrite span_digits_app by done. by destruct ds.
Qed.

(** X1. A heartbeat is answered with itself. A frame whose payload starts
    with [~h~] and holds no marker decodes to one ping whose data is the
    payload framed anew with its own length, so the reply to a frame that
    [send] could have written is that very frame; the length digits that the
    server wrote are not read, any run of digits gives the same reply. *)
Theorem ping_is_echoed (beat digits : wire)
    (Hping : is_prefix_of (txt "~h~") beat = true)
    (Hone : has_marker beat = false)
    (Hdigits : Forall (fun c => is_digit c = true) digits)
    (Hsome : digits <> []) :
  _parse_message (txt "~m~" ++ digits ++ txt "~m~" ++ beat)
  = ([], Returned [Ping (frame beat)])
  /\ _parse_message (frame beat) = ([], Returned [Ping (frame beat)]).
Proof.
  assert (Hgen : forall ds, ds <> [] -> Forall (fun c => is_digit c = true) ds ->
            _parse_message (txt "~m~" ++ ds ++ txt "~m~" ++ beat)
            = ([], Returned [Ping (frame beat)])).
  { intros ds Hne Hds. unfold _parse_message.
    change (txt "~m~" ++ ds ++ txt "~m~" ++ beat)
      with ("~"%char :: "m"%char :: "~"%char :: ds ++ txt "~m~" ++ beat).
    cbv beta iota.
    change ("~"%char :: "m"%char :: "~"%char :: ds ++ txt "~m~" ++ beat)
      with (txt "~m~" ++ ds ++ txt "~m~" ++ beat).
    unfold re_split. cbn [re_split_go]. rewrite match_marker_digits by done.
    rewrite re_split_go_no_marker; [|done|].
    - cbn [tail app parse_events]. by rewrite Hping.
    - rewrite !length_app. simpl. lia. }
  split; [by apply Hgen|].
  unfold frame, py_len.
  destruct (str_int_nat_digits (length beat)) as (d & ds & Heq & Hds).
  apply Hgen; [by rewrite Heq|by rewrite Heq].
Qed.

(** The heartbeat [~h~7]: the reply carries the length 4 whatever length
    came in. *)
Lemma ping_is_echoed_witness :
  _parse_message (txt "~m~4~m~~h~7") = ([], Returned [Ping (txt "~m~4~m~~h~7")])
  /\ _parse_message (txt "~m~999~m~~h~7") = ([], Returned [Ping (txt "~m~4~m~~h~7")]).
Proof.
  destruct (ping_is_echoed (txt "~h~7") (txt "999") eq_refl ltac:(by vm_compute)
              ltac:(by repeat constructor) ltac:(done)) as [Hany Hown].
  split; [exact Hown|exact Hany].
Defined.

(** A written value never starts like a heartbeat. *)
Lemma dumps_not_ping (v : json) :
  wf_json v = true -> is_prefix_of (txt "~h~") (dumps v) = false.
Proof.
  destruct v as [| [] | z | lit | s | l | kvs]; intros Hwf; try done.
  destruct z as [|p|p]; [done| |done].
  destruct (digits_of_head (N.pos p)) as (d & ds & Hds & Hd%is_digit_code & _); [done|].
  change (dumps (JInt (Z.pos p))) with (digits_of (N.pos p)). rewrite Hds.
  change (txt "~h~") with ("~"%char :: txt "h~"). unfold is_prefix_of.
  rewrite bool_decide_eq_false_2; [done|]. intros <-.
  change (code "~"%char) with 126%N in Hd. lia.
Qed.

Lemma dict_get_is_Some (d : list (pystr * json)) (k : pystr) :
  is_Some (dict_get d k) <-> k ∈ d.*1.
Proof.
  induction d as [|[k' x] d IH]; simpl.
  - split; [by intros [? ?]|by intros ?%elem_of_nil].
  - rewrite elem_of_cons. destruct (decide (k' = k)) as [->|Hk].
    + split; [intros _; by left|by eexists].
    + rewrite IH. split; [by right|]. intros [->|H]; done.
Qed.

(** What the decoder makes of a parsed value. *)
Definition classify (v : json) : outcome payload :=
  match contains (u "session_id") v with
  | Returned true => Returned (Session v)
  | Returned false => Returned (Event v)
  | Raised e => Raised e
  end.

Definition is_container (v : json) : bool :=
  match v with
  | JStr _ | JArr _ | JObj _ => true
  | _ => false
  end.

(** What the decoder makes of an object. *)
Definition classify_object (d : list (pystr * json)) : payload :=
  if bool_decide (u "session_id" ∈ d.*1) then Session (JObj d) else Event (JObj d).

Lemma classify_JObj (d : list (pystr * json)) :
  classify (JObj d) = Returned (classify_object d).
Proof.
  unfold classify, classify_object, contains.
  rewrite (bool_decide_ext _ _ (dict_get_is_Some d (u "session_id"))).
  by destruct (bool_decide _).
Qed.

Lemma parse_message_value (v : json) :
  wf_json v = true -> has_marker (dumps v) = false ->
  _parse_message (frame (dumps v))
  = ([], match classify v with
         | Returned p => Returned [p]
         | Raised e => Raised e
         end).
Proof.
  intros Hwf Hmarker. unfold _parse_message.
  destruct (frame (dumps v)) as [|c0 fr] eqn:Hframe; [done|].
  rewrite <- Hframe, re_split_frame by done. cbn [tail parse_events].
  rewrite dumps_not_ping, loads_dumps by done.
  unfold classify. by destruct (contains (u "session_id") v) as [[]|e].
Qed.



(** A text that starts with a tilde is not JSON, so a heartbeat is never
    taken for a value. *)
Lemma parse_value_tilde (f : nat) (s : wire) : parse_value (S f) ("~"%char :: s) = PErr.
Proof. reflexivity. Qed.

Lemma loads_not_ping (segment : wire) (v : json) :
  loads segment = Some v -> is_prefix_of (txt "~h~") segment = false.
Proof.
  intros Hjson. destruct segment as [|c s]; [done|].
  destruct (is_prefix_of (txt "~h~") (c :: s)) eqn:E; [|done].
  change (txt "~h~") with ("~"%char :: txt "h~") in E. unfold is_prefix_of in E.
  apply andb_true_iff in E as [E _]. apply bool_decide_eq_true in E. subst c.
  unfold loads, fuel_for in Hjson.
  replace (2 * length ("~"%char :: s) + 2)%nat with (S (2 * length s + 3))
    in Hjson by (cbn [length]; lia).
  change (skip_ws ("~"%char :: s)) with ("~"%char :: s) in Hjson.
  by rewrite parse_value_tilde in Hjson.
Qed.



(** X4. The decoding loop accounts for every segment: when it returns,
    each segment has given exactly one frame or exactly one printed line, and
    when it raises, fewer lines were printed than there are segments. *)
Theorem each_segment_is_accounted_for (events : list wire) :
  match parse_events events [] [] with
  | (out, Returned frames) => (length frames + length out = length events)%nat
  | (out, Raised _) => (length out < length events)%nat
  end.
Proof.
  induction events as [|event events IH] using rev_ind; [done|].
  rewrite parse_events_app, length_app. cbn [length].
  destruct (parse_events events [] []) as [out [frames|e]]; [|lia].
  cbn [parse_events].
  destruct (is_prefix_of (txt "~h~") event); [rewrite length_app; simpl; lia|].
  destruct (loads event) as [parsed|]; [|rewrite length_app; simpl; lia].
  destruct (contains (u "session_id") parsed) as [[]|e];
    rewrite ?length_app; simpl; lia.
Qed.

(** *** Several frames in one read *)

(** The characters a marker is made of. *)
Definition marker_char (c : ascii) : bool :=
  bool_decide (c = "~"%char) || bool_decide (c = "m"%char) || is_digit c.

(** A text whose last character belongs to no marker. *)
Definition ends_clear (d : wire) : Prop :=
  exists c, last d = Some c /\ marker_char c = false.

Lemma ends_clear_tail (c : ascii) (d : wire) :
  d <> [] -> ends_clear (c :: d) -> ends_clear d.
Proof. intros Hne (x & Hlast & Hx). exists x. by destruct d. Qed.

Lemma ends_clear_app (a b : wire) : b <> [] -> ends_clear (a ++ b) -> ends_clear b.
Proof.
  intros Hne (x & Hlast & Hx). exists x. split; [|done].
  rewrite last_app in Hlast. destruct (last b) eqn:E; [done|].
  by apply last_None in E.
Qed.

Lemma prefix_of_marker_start (x : wire) :
  x <> [] -> ends_clear x -> is_prefix_of x (txt "~m~") = false.
Proof.
  intros Hne (c & Hlast & Hc).
  destruct (is_prefix_of x (txt "~m~")) eqn:E; [|done]. exfalso.
  change (txt "~m~") with ["~"; "m"; "~"]%char in E. unfold is_prefix_of in E.
  destruct x as [|a [|b [|c' [|? ?]]]]; [done| | | |];
    repeat (apply andb_true_iff in E as [?%bool_decide_eq_true E]); simplify_eq/=;
    try done.
Qed.

Lemma strip_prefix_app_None (p x t : wire) :
  strip_prefix p x = None -> is_prefix_of x p = false -> strip_prefix p (x ++ t) = None.
Proof.
  unfold strip_prefix.
  destruct (is_prefix_of p x) eqn:E; [done|]. intros _ Hx.
  enough (is_prefix_of p (x ++ t) = false) as -> by done.
  revert x E Hx. induction p as [|a p IH]; intros [|b x] E Hx; try done.
  change (bool_decide (a = b) && is_prefix_of p x = false) in E.
  change (bool_decide (b = a) && is_prefix_of x p = false) in Hx.
  change (bool_decide (a = b) && is_prefix_of p (x ++ t) = false).
  destruct (decide (a = b)) as [->|Hab].
  - rewrite bool_decide_eq_true_2 in E, Hx |- * by done. apply IH; done.
  - by rewrite bool_decide_eq_false_2.
Qed.

Lemma strip_prefix_eq (p s r : wire) : strip_prefix p s = Some r -> s = p ++ r.
Proof.
  unfold strip_prefix. destruct (is_prefix_of p s) eqn:E; [|done]. intros [= <-].
  revert s E. induction p as [|a p IH]; intros [|b s] E; try done.
  change (bool_decide (a = b) && is_prefix_of p s = true) in E.
  apply andb_true_iff in E as [->%bool_decide_eq_true E]. simpl. f_equal. by apply IH.
Qed.

(** A piece that holds no marker and ends clear of one cannot start a marker
    with the help of what follows it. *)
Lemma match_marker_app_None (x t : wire) :
  match_marker x = None -> ends_clear x -> match_marker (x ++ t) = None.
Proof.
  intros Hno Hclear.
  assert (Hne : x <> []) by (destruct Hclear as (c & Hlast & _); by destruct x).
  unfold match_marker in *.
  destruct (strip_prefix (txt "~m~") x) as [r1|] eqn:E1; cycle 1.
  { rewrite strip_prefix_app_None; [done|done|by apply prefix_of_marker_start]. }
  apply strip_prefix_eq in E1 as ->. rewrite <- app_assoc.
  change (strip_prefix (txt "~m~") (txt "~m~" ++ ?y)) with (Some y) in *.
  cbn [mbind option_bind] in *.
  destruct (span_digits r1) as [ds r2] eqn:E2.
  apply span_digits_spec in E2 as (-> & Hds & Hr2).
  destruct r2 as [|c r2].
  { exfalso. destruct Hclear as (c & Hlast & Hc). rewrite app_nil_r in Hlast.
    destruct ds as [|d ds' _] using rev_ind.
    - injection Hlast as <-. done.
    - rewrite app_assoc, last_snoc in Hlast. injection Hlast as <-.
      apply Forall_app in Hds as [_ Hd]. apply Forall_inv in Hd.
      unfold marker_char in Hc. rewrite Hd in Hc. by rewrite orb_true_r in Hc. }
  rewrite <- app_assoc, span_digits_app by done.
  destruct ds as [|d ds]; [done|].
  apply strip_prefix_app_None; [done|].
  apply prefix_of_marker_start; [done|].
  apply (ends_clear_app (txt "~m~" ++ d :: ds)); [done|]. by rewrite <- app_assoc.
Qed.

Lemma has_marker_cons (c : ascii) (r : wire) :
  has_marker (c :: r) = false -> match_marker (c :: r) = None /\ has_marker r = false.
Proof.
  intros H. cbn [has_marker] in H. by destruct (match_marker (c :: r)).
Qed.

(** The splitter walks over such a piece and keeps it whole. *)
Lemma re_split_go_piece (d t : wire) :
  has_marker d = false -> ends_clear d ->
  forall fuel cur, (length d <= fuel)%nat ->
    re_split_go fuel (d ++ t) cur = re_split_go (fuel - length d) t (cur ++ d).
Proof.
  induction d as [|c d IH]; intros Hno Hclear fuel cur Hfuel.
  { destruct Hclear as (? & ? & _). done. }
  destruct fuel as [|f]; [simpl in Hfuel; lia|].
  apply has_marker_cons in Hno as [Hhere Hno].
  cbn [re_split_go]. rewrite match_marker_app_None by done.
  cbn [app length Nat.sub].
  destruct (decide (d = [])) as [->|Hne].
  - by rewrite Nat.sub_0_r.
  - rewrite IH; [by rewrite <- app_assoc|done|by eapply ends_clear_tail|simpl in Hfuel; lia].
Qed.

Lemma length_frame (data : wire) :
  length (frame data) = (6 + length (str_int (py_len data)) + length data)%nat.
Proof.
  unfold frame. rewrite !length_app. change (length (txt "~m~")) with 3%nat. lia.
Qed.

Lemma re_split_go_frames (pieces : list wire) :
  Forall (fun d => has_marker d = false /\ ends_clear d) pieces ->
  forall fuel cur, (length (concat (frame <$> pieces)) < fuel)%nat ->
    re_split_go fuel (concat (frame <$> pieces)) cur = cur :: pieces.
Proof.
  induction 1 as [|d pieces [Hno Hclear] _ IH]; intros fuel cur Hfuel.
  { destruct fuel; [simpl in Hfuel; lia|]. done. }
  destruct fuel as [|f]; [simpl in Hfuel; lia|].
  cbn [fmap list_fmap concat] in *. fold (fmap (M:=list) frame pieces) in *.
  cbn [re_split_go].
  assert (Hm : match_marker (frame d ++ concat (frame <$> pieces))
               = Some (d ++ concat (frame <$> pieces))).
  { unfold frame, py_len.
    destruct (str_int_nat_digits (length d)) as (x & xs & Heq & Hds).
    rewrite <- !app_assoc. apply match_marker_digits; by rewrite Heq. }
  rewrite Hm. f_equal.
  assert (Hlen : (length d + length (concat (frame <$> pieces)) < f)%nat).
  { rewrite length_app, length_frame in Hfuel. lia. }
  rewrite re_split_go_piece by (done || lia).
  apply IH. lia.
Qed.

Lemma dumps_obj_ends_clear (d : list (pystr * json)) : ends_clear (dumps (JObj d)).
Proof.
  exists "}"%char. split; [|done].
  rewrite dumps_obj. change (txt "}") with ["}"%char].
  by rewrite app_comm_cons, last_snoc.
Qed.

Lemma parse_events_objects (objects : list (list (pystr * json))) :
  Forall (fun d => wf_json (JObj d) = true) objects ->
  forall result,
    parse_events ((fun d => dumps (JObj d)) <$> objects) result []
    = ([], Returned (result ++ (classify_object <$> objects))).
Proof.
  induction 1 as [|d objects Hd _ IH]; intros result.
  { by rewrite app_nil_r. }
  cbn [fmap list_fmap parse_events].
  fold (fmap (M:=list) (fun d => dumps (JObj d)) objects).
  fold (fmap (M:=list) classify_object objects).
  rewrite dumps_not_ping, loads_dumps by done.
  pose proof (classify_JObj d) as Hc. unfold classify in Hc.
  destruct (contains (u "session_id") (JObj d)) as [[]|e]; [| |done];
    injection Hc as Hc; rewrite IH, <- app_assoc, <- Hc; done.
Qed.

(** The splitter on some text without a marker followed by frames of
    objects: the text is the first piece, which [_parse_message] drops. *)
Lemma re_split_objects (junk : wire) (objects : list (list (pystr * json))) :
  has_marker junk = false -> junk = [] \/ ends_clear junk ->
  Forall (fun d => has_marker (dumps (JObj d)) = false) objects ->
  re_split (junk ++ concat ((fun d => frame (dumps (JObj d))) <$> objects))
  = junk :: ((fun d => dumps (JObj d)) <$> objects).
Proof.
  intros Hjunk Hclear Hmarker. unfold re_split.
  replace ((fun d => frame (dumps (JObj d))) <$> objects)
    with (frame <$> ((fun d => dumps (JObj d)) <$> objects))
    by (by rewrite <- list_fmap_compose).
  assert (Hpieces : Forall (fun d => has_marker d = false /\ ends_clear d)
                      ((fun d => dumps (JObj d)) <$> objects)).
  { apply Forall_fmap. eapply Forall_impl; [exact Hmarker|].
    intros d Hd. split; [done|]. apply dumps_obj_ends_clear. }
  destruct Hclear as [->|Hclear].
  - cbn [app]. by apply re_split_go_frames; [|lia].
  - rewrite re_split_go_piece by (done || (rewrite length_app; lia)).
    cbn [app]. apply re_split_go_frames; [done|]. rewrite length_app. lia.
Qed.

Lemma parse_message_frames (objects : list (list (pystr * json))) :
  Forall (fun d => wf_json (JObj d) = true) objects ->
  Forall (fun d => has_marker (dumps (JObj d)) = false) objects ->
  _parse_message (concat ((fun d => frame (dumps (JObj d))) <$> objects))
  = ([], Returned (classify_object <$> objects)).
Proof.
  intros Hwf Hmarker. unfold _parse_message.
  pose proof (re_split_objects [] objects eq_refl (or_introl eq_refl) Hmarker) as Hsplit.
  cbn [app] in Hsplit. rewrite Hsplit. cbn [tail].
  rewrite parse_events_objects by done.
  by destruct (concat _); destruct objects.
Qed.





(** ** The subscriber registry, further *)

(** X7. The registry is a set. Subscribing a handler twice is subscribing
    it once, unsubscribing twice is unsubscribing once, unsubscribing a
    handler that is not registered changes nothing, subscribing and then
    unsubscribing a handler that was not registered restores the client,
    neither touches another handler, and [_add_event_handler] is
    [subscribe]. *)
Theorem registry_is_a_set (h h' : hid) (c : TradingviewClient) :
  subscribe h (subscribe h c) = subscribe h c
  /\ unsubscribe h (unsubscribe h c) = unsubscribe h c
  /\ subscribers (unsubscribe h (subscribe h c)) = subscribers c ∖ {[h]}
  /\ (h ∉ subscribers c -> unsubscribe h c = c /\ unsubscribe h (subscribe h c) = c)
  /\ (h' <> h ->
      (h' ∈ subscribers (subscribe h c) <-> h' ∈ subscribers c)
      /\ (h' ∈ subscribers (unsubscribe h c) <-> h' ∈ subscribers c))
  /\ _add_event_handler h c = subscribe h c
  /\ (websocket (subscribe h c), connected (subscribe h c), writes (subscribe h c))
     = (websocket c, connected c, writes c)
  /\ (websocket (unsubscribe h c), connected (unsubscribe h c), writes (unsubscribe h c))
     = (websocket c, connected c, writes c).
Proof.
  destruct c as [ws subs conn wr].
  unfold subscribe, unsubscribe, _add_event_handler, set_subscribers. simpl.
  split; [f_equal; by rewrite (assoc_L (∪)), union_idemp_L|].
  split; [f_equal; by rewrite difference_difference_l_L, union_idemp_L|].
  split; [apply set_eq; intros x; rewrite !elem_of_difference, elem_of_union; tauto|].
  split.
  { intros Hfresh. split; f_equal.
    - apply set_eq. intros x. rewrite elem_of_difference, elem_of_singleton.
      split; [tauto|]. intros Hx. split; [done|]. by intros ->.
    - apply set_eq. intros x.
      rewrite elem_of_difference, elem_of_union, elem_of_singleton.
      split; [tauto|]. intros Hx. split; [by right|]. by intros ->. }
  split; [|done].
  intros Hne. rewrite elem_of_union, elem_of_difference, elem_of_singleton. tauto.
Qed.

Section PublishEnds.
Context {S : Type}.
Variable call : hid -> TradingviewEvent -> @world S -> outcome bool * @world S.
Variable event : TradingviewEvent.
Variable start : gset hid.

Lemma asked_removal_snoc (calls : list (hid * outcome bool)) (h : hid) (out : outcome bool) :
  asked_removal (calls ++ [(h, out)])
  = asked_removal calls ++ match out with Returned true => [h] | _ => [] end.
Proof.
  unfold asked_removal. rewrite omap_app. simpl. by destruct out as [[]|].
Qed.

Lemma raised_snoc (calls : list (hid * outcome bool)) (h : hid) (out : outcome bool) :
  raised (calls ++ [(h, out)])
  = raised calls ++ match out with Raised e => [e] | _ => [] end.
Proof.
  unfold raised. rewrite omap_app. simpl. by destruct out.
Qed.

(** How the loop ends from any of its states: the invocations made, the
    errors printed and the registry left behind. *)
Lemma notify_loop_ends (pending : list hid) :
  forall (handlers_to_remove : list hid) (calls : list (hid * outcome bool))
         (reported : list exn) (w : @world S),
    handlers_to_remove = asked_removal calls ->
    reported = raised calls ->
    let r := notify_loop call event start pending handlers_to_remove calls reported w in
    p_reported r = raised (p_calls r)
    /\ match p_end r with
       | Completed =>
           (p_calls r).*1 = calls.*1 ++ pending
           /\ subscribers (p_world r).1
              = start ∖ list_to_set (asked_removal (p_calls r))
       | stop =>
           (exists more rest,
              pending = more ++ rest /\ (p_calls r).*1 = calls.*1 ++ more
              /\ (subscribers w.1 = start -> more <> []))
           /\ subscribers (p_world r).1 <> start
           /\ (stop = SetChangedSize <-> size (subscribers (p_world r).1) <> size start)
       end.
Proof.
  induction pending as [|h rest IH]; intros rm calls rep w Hrm Hrep r; subst r.
  - cbn [notify_loop]. unfold iterator_check.
    destruct (decide (subscribers w.1 = start)) as [Hsame|Hdiff].
    + cbn [p_reported p_calls p_end p_world]. split; [done|].
      split; [by rewrite app_nil_r|].
      by rewrite discard_all_subscribers, Hsame, Hrm.
    + destruct (decide (size (subscribers w.1) = size start)) as [Hsize|Hsize];
        cbn [p_reported p_calls p_end p_world]; (split; [done|]);
        (split; [exists [], []; split; [done|]; split; [by rewrite app_nil_r|done]|]);
        (split; [done|]); split; done.
  - cbn [notify_loop]. unfold iterator_check.
    destruct (decide (subscribers w.1 = start)) as [Hsame|Hdiff].
    + destruct (call h event w) as [[b|e] w'] eqn:Hcall.
      * specialize (IH (if b then rm ++ [h] else rm) (calls ++ [(h, Returned b)]) rep w').
        destruct IH as [Hreported Hend].
        { rewrite asked_removal_snoc, Hrm. destruct b; by rewrite ?app_nil_r. }
        { by rewrite raised_snoc, app_nil_r. }
        split; [exact Hreported|].
        destruct (p_end _) eqn:Hstop.
        -- destruct Hend as [Hcalls Hsubs]. split; [|done].
           rewrite Hcalls, fmap_app, <- app_assoc. done.
        -- destruct Hend as [(more & rest' & -> & Hcalls & _) Hrest].
           split; [|done]. exists (h :: more), rest'.
           split; [done|]. split; [|done].
           rewrite Hcalls, fmap_app, <- app_assoc. done.
        -- destruct Hend as [(more & rest' & -> & Hcalls & _) Hrest].
           split; [|done]. exists (h :: more), rest'.
           split; [done|]. split; [|done].
           rewrite Hcalls, fmap_app, <- app_assoc. done.
      * specialize (IH rm (calls ++ [(h, Raised e)]) (rep ++ [e]) w').
        destruct IH as [Hreported Hend].
        { by rewrite asked_removal_snoc, app_nil_r. }
        { by rewrite raised_snoc, Hrep. }
        split; [exact Hreported|].
        destruct (p_end _) eqn:Hstop.
        -- destruct Hend as [Hcalls Hsubs]. split; [|done].
           rewrite Hcalls, fmap_app, <- app_assoc. done.
        -- destruct Hend as [(more & rest' & -> & Hcalls & _) Hrest].
           split; [|done]. exists (h :: more), rest'.
           split; [done|]. split; [|done].
           rewrite Hcalls, fmap_app, <- app_assoc. done.
        -- destruct Hend as [(more & rest' & -> & Hcalls & _) Hrest].
           split; [|done]. exists (h :: more), rest'.
           split; [done|]. split; [|done].
           rewrite Hcalls, fmap_app, <- app_assoc. done.
    + destruct (decide (size (subscribers w.1) = size start)) as [Hsize|Hsize];
        cbn [p_reported p_calls p_end p_world]; (split; [done|]);
        (split; [exists [], (h :: rest); split; [done|];
                 split; [by rewrite app_nil_r|done]|]);
        (split; [done|]); split; done.
Qed.
End PublishEnds.


(** X9. A handler that returned True is gone at the next publish, and only
    such a handler: when no handler touches the registry while it runs, the
    second of two publishes invokes exactly the handlers that the first one
    invoked and that did not return True, those that raised included. *)
Theorem one_shot_handler_is_not_invoked_again {S : Type}
    (call : hid -> TradingviewEvent -> @world S -> outcome bool * @world S)
    (first second : TradingviewEvent) (w : @world S)
    (Hfirst : leaves_registry call first) (Hsecond : leaves_registry call second) :
  let r1 := _notify_subscribers call first w in
  let r2 := _notify_subscribers call second (p_world r1) in
  (p_calls r2).*1
  = elements (subscribers w.1 ∖ list_to_set (asked_removal (p_calls r1)))
  /\ (forall h, (h, Returned true) ∈ p_calls r1 -> h ∉ (p_calls r2).*1)
  /\ (forall h out, (h, out) ∈ p_calls r1 -> out <> Returned true ->
        h ∈ (p_calls r2).*1).
Proof.
  intros r1 r2.
  destruct (publish_quiet call first Hfirst w) as (_ & Hcalls1 & _ & Hsubs1).
  destruct (publish_quiet call second Hsecond (p_world r1)) as (_ & Hcalls2 & _ & _).
  fold r1 in Hcalls1, Hsubs1. fold r2 in Hcalls2.
  rewrite Hsubs1 in Hcalls2. split; [exact Hcalls2|].
  assert (Hnodup : NoDup (p_calls r1).*1) by (rewrite Hcalls1; apply NoDup_elements).
  split.
  - intros h Hin. rewrite Hcalls2, elem_of_elements, elem_of_difference.
    intros [_ Hnot]. apply Hnot. rewrite elem_of_list_to_set.
    unfold asked_removal. rewrite list_elem_of_omap. by exists (h, Returned true).
  - intros h out Hin Hout. rewrite Hcalls2, elem_of_elements, elem_of_difference. split.
    + apply elem_of_elements. rewrite <- Hcalls1. apply list_elem_of_fmap. by exists (h, out).
    + rewrite elem_of_list_to_set. unfold asked_removal. rewrite list_elem_of_omap.
      intros ([h' out'] & Hin' & Hsome).
      destruct out' as [[]|]; try done. injection Hsome as ->.
      by pose proof (NoDup_fst_functional _ _ _ _ Hnodup Hin Hin').
Qed.

(** Handler 3 returned True and is not invoked again; handler 2 raised and
    is. *)
Lemma one_shot_handler_is_not_invoked_again_witness :
  let w := registered [1; 2; 3]%positive in
  let r1 := _notify_subscribers example_call some_event w in
  let r2 := _notify_subscribers example_call some_event (p_world r1) in
  (3%positive, Returned true) ∈ p_calls r1
  /\ (3%positive ∉ (p_calls r2).*1)
  /\ 2%positive ∈ (p_calls r2).*1.
Proof.
  intros w r1 r2.
  assert (Hquiet : leaves_registry example_call some_event) by (intros h w'; reflexivity).
  destruct (one_shot_handler_is_not_invoked_again example_call some_event some_event w
              Hquiet Hquiet) as (_ & Hgone & Hkept).
  assert (H3 : (3%positive, Returned true) ∈ p_calls r1) by (vm_compute; repeat constructor).
  assert (H2 : (2%positive, Raised KeyError) ∈ p_calls r1) by (vm_compute; repeat constructor).
  split; [exact H3|]. split; [exact (Hgone _ H3)|]. exact (Hkept _ _ H2 ltac:(done)).
Defined.

(** ** The fetch engine, further *)

(** X10. With a cap between 1 and [MAX_BATCH_SIZE] no further page is ever
    asked for: the batch size is the cap, the page test of line 243 fails for
    every count, and a [series_completed] or [symbol_error] event always
    closes the current symbol. *)
Theorem small_cap_never_pages (cfg : FetchConfig) (a : Z)
    (Hamount : amount cfg = Some a)
    (Hpositive : 0 < a) (Hsmall : a <= MAX_BATCH_SIZE) :
  batch_size (amount cfg) = a
  /\ (forall n, another_page (amount cfg) n = false)
  /\ (forall event c st,
        series_end event = true ->
        handle_event cfg event (c, st) = symbol_loaded cfg (c, st)).
Proof.
  assert (Hbs : batch_size (amount cfg) = a).
  { rewrite Hamount. unfold batch_size, MAX_BATCH_SIZE in *.
    destruct (Z.eqb_spec a 0); [lia|]. destruct (Z.ltb_spec a 5000); simpl; lia. }
  assert (Hnever : forall n, another_page (amount cfg) n = false).
  { intros n. destruct (another_page (amount cfg) n) eqn:E; [|done].
    apply another_page_iff in E as (Hn & Hdiv & Hcap). rewrite Hbs in Hdiv.
    apply Z.divide_pos_le in Hdiv; [|done].
    destruct Hcap as [Hgiven|(cap & Hcap & Hlt)].
    - rewrite Hamount in Hgiven. simpl in Hgiven.
      destruct (Z.eqb_spec a 0); [lia|done].
    - rewrite Hamount in Hcap. injection Hcap as <-. lia. }
  split; [exact Hbs|]. split; [exact Hnever|].
  intros event c st Hevent.
  by rewrite handle_series_end, on_series_end_eq, Hnever.
Qed.

(** A cap of 1000 never pages; a cap of 10000 does at 5000 rows. *)
Lemma small_cap_never_pages_witness :
  let cfg := example_cfg [u "A"] (Some 1000) in
  batch_size (amount cfg) = 1000
  /\ another_page (amount cfg) 1000 = false
  /\ another_page (amount (example_cfg [u "A"] (Some 10000))) 5000 = true.
Proof.
  intros cfg.
  destruct (small_cap_never_pages cfg 1000 eq_refl ltac:(done) ltac:(done))
    as (Hbs & Hnever & _).
  split; [exact Hbs|]. split; [apply Hnever|reflexivity].
Defined.

(** *** The cap that [index.py] passes *)

(** [int(TV_MAX_CANDLES) | 10000] of [main], for the integer that the
    setting holds: a bitwise OR. *)
Definition main_amount (tv_max_candles : Z) : Z := Z.lor tv_max_candles 10000.

Lemma land_le_l (a b : Z) : 0 <= a -> Z.land a b <= a.
Proof.
  intros Ha.
  pose proof (Z.add_lor_land (Z.ldiff a b) (Z.land a b)) as Hsum.
  rewrite Z.lor_ldiff_and in Hsum.
  assert (Z.land (Z.ldiff a b) (Z.land a b) = 0) as Hzero.
  { rewrite (Z.land_comm a b), Z.land_assoc, Z.land_ldiff. apply Z.land_0_l. }
  rewrite Hzero in Hsum.
  assert (0 <= Z.ldiff a b) by (apply Z.ldiff_nonneg; by left).
  lia.
Qed.

(** X11. The cap that [main] passes is never the setting alone: for a
    setting [n >= 0] it is [n + 10000] less the bits the two share, at least
    [10000] and at least [n], equal to [n] only when [n] has every bit of
    [10000] set; it is a true value, and the batch size that [get_candles]
    derives from it is always [MAX_BATCH_SIZE]. *)
Theorem main_amount_is_at_least_10000 (n : Z) (Hn : 0 <= n) :
  let a := main_amount n in
  a = n + 10000 - Z.land n 10000
  /\ 10000 <= a /\ n <= a <= n + 10000
  /\ (a = n <-> Z.land n 10000 = 10000)
  /\ given (Some a) = true
  /\ batch_size (Some a) = MAX_BATCH_SIZE.
Proof.
  intros a. subst a. unfold main_amount.
  pose proof (Z.add_lor_land n 10000) as Hsum.
  pose proof (land_le_l n 10000 Hn) as Hl.
  pose proof (land_le_l 10000 n ltac:(done)) as Hr. rewrite Z.land_comm in Hr.
  assert (0 <= Z.land n 10000) as H0 by (apply Z.land_nonneg; by left).
  split; [lia|]. split; [lia|]. split; [lia|]. split; [lia|].
  unfold given, batch_size, MAX_BATCH_SIZE.
  destruct (Z.eqb_spec (Z.lor n 10000) 0); [lia|].
  destruct (Z.ltb_spec (Z.lor n 10000) 5000); [lia|]. done.
Qed.

(** A setting of 500 gives a cap of 10228. *)
Lemma main_amount_is_at_least_10000_witness :
  main_amount 500 = 10228 /\ 10000 <= main_amount 500
  /\ batch_size (Some (main_amount 500)) = 5000.
Proof.
  destruct (main_amount_is_at_least_10000 500 ltac:(done)) as (_ & Hmin & _ & _ & _ & Hbs).
  split; [reflexivity|]. split; [exact Hmin|exact Hbs].
Defined.

(** *** Starting a fetch *)

(** The three messages that [get_candles] queues before it waits. *)
Definition opening_frames (cfg : FetchConfig) (sym : pystr) : list wire :=
  [frame (message_data (u "chart_create_session") [JStr (chart_session cfg); JStr []]);
   frame (message_data (u "resolve_symbol")
            [JStr (chart_session cfg); JStr (u "sds_sym_0"); symbol_spec sym]);
   frame (message_data (u "create_series")
            [JStr (chart_session cfg); JStr (u "sds_1"); JStr (u "s0");
             JStr (u "sds_sym_0"); JStr (str_timeframe (timeframe cfg));
             JInt (batch_size (amount cfg)); JStr []])].

Lemma get_candles_eq (h : hid) (cfg : FetchConfig) (c : TradingviewClient)
    (sym : pystr) (others : list pystr) :
  symbols cfg = sym :: others ->
  get_candles h cfg c
  = if websocket c
    then (Returned (Awaiting (first_state sym)),
          set_writes (writes c ++ opening_frames cfg sym) (_add_event_handler h c))
    else (Raised not_connected, _add_event_handler h c).
Proof.
  intros Hsymbols. unfold get_candles. rewrite Hsymbols.
  unfold mbind, M_bind, mret, M_ret, send, opening_frames.
  destruct c as [[] subs conn wr]; simpl; [|done].
  unfold set_writes, _add_event_handler, set_subscribers. simpl.
  by rewrite <- !app_assoc.
Qed.

(** X12. How a fetch of at least one symbol starts. With a socket,
    [get_candles] registers its handler, queues [chart_create_session],
    [resolve_symbol] for the first symbol and [create_series] with the batch
    size, in that order, and waits. Without a socket the first [send] raises
    after the handler was registered: the handler stays in the registry and
    nothing is queued. *)
Theorem get_candles_opening (h : hid) (cfg : FetchConfig) (c : TradingviewClient)
    (sym : pystr) (others : list pystr)
    (Hsymbols : symbols cfg = sym :: others) :
  (websocket c = true ->
   get_candles h cfg c
   = (Returned (Awaiting (first_state sym)),
      set_writes (writes c ++ opening_frames cfg sym) (_add_event_handler h c)))
  /\ (websocket c = false ->
      get_candles h cfg c = (Raised not_connected, _add_event_handler h c)
      /\ h ∈ subscribers (get_candles h cfg c).2
      /\ writes (get_candles h cfg c).2 = writes c).
Proof.
  rewrite (get_candles_eq h cfg c sym others Hsymbols).
  split; intros ->; [done|].
  split; [done|]. split; [|done]. apply elem_of_union_l, elem_of_singleton. done.
Qed.

(** The same fetch on an open and on a new client. *)
Lemma get_candles_opening_witness :
  let cfg := example_cfg [u "A"; u "B"] (Some 300) in
  (get_candles 7%positive cfg opened_client).1 = Returned (Awaiting (first_state (u "A")))
  /\ writes (get_candles 7%positive cfg opened_client).2 = opening_frames cfg (u "A")
  /\ get_candles 7%positive cfg new_client
     = (Raised not_connected, _add_event_handler 7%positive new_client).
Proof.
  intros cfg.
  destruct (get_candles_opening 7%positive cfg opened_client (u "A") [u "B"] eq_refl)
    as [Hopen _].
  destruct (get_candles_opening 7%positive cfg new_client (u "A") [u "B"] eq_refl)
    as [_ Hclosed].
  rewrite (Hopen eq_refl). split; [done|]. split; [done|]. exact (proj1 (Hclosed eq_refl)).
Defined.

(** *** What the handler leaves alone *)

Lemma handle_event_other (cfg : FetchConfig) (event : TradingviewEvent)
    (w : TradingviewClient * FetchState) :
  name_is event "timescale_update" = false -> series_end event = false ->
  handle_event cfg event w = (Returned false, w).
Proof. intros H1 H2. unfold handle_event. by rewrite H1, H2. Qed.

(** X13. What [handle_event] leaves alone, on any event and in any state:
    the socket, the registry and the connected flag are untouched; the
    queued writes only grow, by two frames at most and by none when the
    handler returns True; the results only grow, by one list at most; the
    symbol index moves forward by one at most; the future changes only when
    the handler returns True; and an event that is neither a
    [timescale_update] nor an end of series changes nothing at all. *)
Theorem handle_event_frame (cfg : FetchConfig) (event : TradingviewEvent)
    (c : TradingviewClient) (st : FetchState) :
  let r := handle_event cfg event (c, st) in
  let c' := r.2.1 in
  let st' := r.2.2 in
  (websocket c', subscribers c', connected c') = (websocket c, subscribers c, connected c)
  /\ (exists sent, writes c' = writes c ++ sent /\ (length sent <= 2)%nat
                   /\ (r.1 = Returned true -> sent = []))
  /\ (exists loaded, all_candles st' = all_candles st ++ loaded /\ (length loaded <= 1)%nat)
  /\ (current_sym_index st <= current_sym_index st' <= S (current_sym_index st))%nat
  /\ (result_future st' <> result_future st -> r.1 = Returned true)
  /\ (name_is event "timescale_update" = false -> series_end event = false ->
      r = (Returned false, (c, st))).
Proof.
  intros r c' st'. subst c' st' r.
  split; [|split; [|split; [|split; [|split]]]]; cycle 5.
  { intros H1 H2. by apply handle_event_other. }
  all: destruct (name_is event "timescale_update") eqn:Hupdate;
    [ unfold handle_event; rewrite Hupdate, on_timescale_update_eq;
      destruct (delivered event) as [rows|e];
      [destruct (merge_rows _ _ _) as [rows'|e]|]
    | destruct (series_end event) eqn:Hend;
      [ rewrite handle_series_end, on_series_end_eq by done;
        destruct (another_page _ _);
        [ destruct (websocket c) eqn:Hws
        | rewrite symbol_loaded_eq; cbv zeta;
          destruct (to_candles _) as [cs|e];
          [ destruct (_ >? _);
            [ destruct (symbols cfg !! _) as [sym|];
              [destruct (websocket c) eqn:Hws|]
            | destruct (result_future st) eqn:Hfut ]
          | ] ]
      | rewrite handle_event_other by done ] ];
    cbn [fst snd websocket subscribers connected writes set_writes all_candles
         current_sym_index result_future set_all_candles set_current_sym_index
         set_symbol set_current_sym_candles set_result_future].
  all: try done.
  all: try lia.
  all: try (exists []; rewrite app_nil_r; split; [done|]; split; [simpl; lia|done]).
  all: try (exists []; rewrite app_nil_r; split; [done|simpl; lia]).
  all: try (eexists; split; [done|]; split; [simpl; lia|done]).
  all: try (by exists [cs]).
  all: try (intros H; by rewrite Hfut in H).
  all: by rewrite Hws.
Qed.

(** X14. Moving to the next symbol. When a symbol is fully loaded, its rows
    convert and another symbol follows, the handler appends the candles to
    the results, empties the accumulator, moves to the next symbol, queues
    [resolve_symbol] and [modify_series] for it and returns False; without a
    socket it raises, with that state already updated. *)
Theorem series_end_moves_to_next_symbol (cfg : FetchConfig) (event : TradingviewEvent)
    (c : TradingviewClient) (st : FetchState) (cs : list Candle) (sym : pystr)
    (Hevent : series_end event = true)
    (Hloaded : another_page (amount cfg) (py_len (current_sym_candles st)) = false)
    (Hrows : to_candles (kept_rows cfg st) = Returned cs)
    (Hnext : symbols cfg !! S (current_sym_index st) = Some sym) :
  let i := S (current_sym_index st) in
  let st' := {| all_candles := all_candles st ++ [cs]; current_sym_index := i;
                symbol := sym; current_sym_candles := [];
                result_future := result_future st |} in
  (websocket c = true ->
   handle_event cfg event (c, st)
   = (Returned false, (set_writes (writes c ++ next_symbol_frames cfg i sym) c, st')))
  /\ (websocket c = false ->
      handle_event cfg event (c, st) = (Raised not_connected, (c, st'))).
Proof.
  intros i st'. subst i st'.
  rewrite handle_series_end, on_series_end_eq, Hloaded, symbol_loaded_eq by done.
  cbv zeta. rewrite Hrows.
  pose proof (lookup_lt_Some _ _ _ Hnext) as Hlt.
  destruct (Z.gtb_spec (py_len (symbols cfg) - 1) (Z.of_nat (current_sym_index st)))
    as [_|Hle]; [|unfold py_len in Hle; lia].
  rewrite Nat.add_1_r, Hnext. split; intros ->; done.
Qed.

(** Two symbols: the end of the first series moves the fetch to the second. *)
Lemma series_end_moves_to_next_symbol_witness :
  let cfg := example_cfg [u "A"; u "B"] None in
  let st := set_current_sym_candles (example_row <$> [2; 1]) (first_state (u "A")) in
  let r := handle_event cfg series_completed (opened_client, st) in
  r.1 = Returned false
  /\ writes r.2.1 = next_symbol_frames cfg 1 (u "B")
  /\ (current_sym_index r.2.2, symbol r.2.2, current_sym_candles r.2.2)
     = (1%nat, u "B", [])
  /\ all_candles r.2.2 = [example_candle <$> [2; 1]].
Proof.
  intros cfg st r.
  destruct (series_end_moves_to_next_symbol cfg series_completed opened_client st
              (fmap (M:=list) example_candle [2; 1]) (u "B")
              eq_refl eq_refl eq_refl eq_refl)
    as [Hopen _].
  subst r. rewrite (Hopen eq_refl).
  split; [reflexivity|]. split; [reflexivity|]. split; reflexivity.
Defined.

(** *** Rows to candles *)

Definition is_object (v : json) : bool :=
  match v with
  | JObj _ => true
  | _ => false
  end.

(** X15. A row becomes a candle by position: the entries 0 to 5 of the
    list under the key [v] are the timestamp, open, high, low, close and
    volume, further entries are ignored; a row without [v] raises a
    [KeyError], a [v] list shorter than six an [IndexError], a row that is no
    object a [TypeError]. *)
Theorem candle_fields_by_position (row : json) :
  (forall d t o h l cl vol more,
     row = JObj d ->
     dict_get d (u "v") = Some (JArr (t :: o :: h :: l :: cl :: vol :: more)) ->
     to_candle row
     = Returned {| Candle.timestamp := t; Candle.open := o; Candle.high := h;
                   Candle.low := l; Candle.close := cl; Candle.volume := vol |})
  /\ (forall d, row = JObj d -> dict_get d (u "v") = None ->
        to_candle row = Raised KeyError)
  /\ (forall d vs, row = JObj d -> dict_get d (u "v") = Some (JArr vs) ->
        (length vs < 6)%nat -> to_candle row = Raised IndexError)
  /\ (is_object row = false -> to_candle row = Raised TypeError).
Proof.
  split; [|split; [|split]].
  - intros d t o h l cl vol more -> Hv. unfold to_candle, field, getitem_key.
    rewrite Hv. done.
  - intros d -> Hv. unfold to_candle, field, getitem_key. by rewrite Hv.
  - intros d vs -> Hv Hlen. unfold to_candle, field, getitem_key. rewrite Hv.
    do 6 (destruct vs as [|? vs]; [done|]). simpl in Hlen. lia.
  - intros Hkind. by destruct row.
Qed.

(** X16. The rows are converted in order, one candle per row; when the
    conversion raises, the error is that of the first row that does not
    convert. *)
Theorem rows_convert_in_order (rows : list json) :
  match to_candles rows with
  | Returned cs => Forall2 (fun row c => to_candle row = Returned c) rows cs
  | Raised e =>
      exists good bad rest,
        rows = good ++ bad :: rest
        /\ Forall (fun row => exists c, to_candle row = Returned c) good
        /\ to_candle bad = Raised e
  end.
Proof.
  induction rows as [|row rows IH]; cbn [to_candles]; [constructor|].
  destruct (to_candle row) as [x|e] eqn:Hrow.
  - destruct (to_candles rows) as [xs|e].
    + by constructor.
    + destruct IH as (good & bad & rest & -> & Hgood & Hbad).
      exists (row :: good), bad, rest. split; [done|]. split; [|done].
      constructor; [by exists x|done].
  - exists [], row, rows. split; [done|]. split; [constructor|done].
Qed.

(** X17. A [timescale_update] either accumulates or changes nothing. The
    handler returns False exactly when [params[1]['sds_1']['s']] is there and
    is a list; then the client is untouched and the new accumulator ends
    with the old one. Otherwise it raises, with the client and the state as
    they were. *)
Theorem timescale_update_accumulates_or_raises (cfg : FetchConfig)
    (event : TradingviewEvent) (c : TradingviewClient) (st : FetchState)
    (Hname : name_is event "timescale_update" = true) :
  let r := handle_event cfg event (c, st) in
  ((exists rows, delivered event = Returned (JArr rows)) <-> r.1 = Returned false)
  /\ (r.1 = Returned false ->
      r.2.1 = c
      /\ exists added,
           r.2.2 = set_current_sym_candles (added ++ current_sym_candles st) st)
  /\ (r.1 <> Returned false -> (exists e, r.1 = Raised e) /\ r.2 = (c, st)).
Proof.
  intros r. subst r. unfold handle_event. rewrite Hname, on_timescale_update_eq.
  destruct (delivered event) as [new|e]; cbn [fst snd].
  2:{ split; [split; [by intros [? ?]|done]|]. split; [done|]. intros _. by eauto. }
  destruct new as [| b | z | lit | s | l | kvs]; cbn [merge_rows fst snd];
    try (split; [split; [by intros [? ?]|done]|]; split; [done|]; intros _; by eauto).
  split; [split; [done|by eauto]|]. split; [|done]. intros _. split; [done|]. by eauto.
Qed.

(** An update without parameters raises and changes nothing. *)
Lemma timescale_update_accumulates_or_raises_witness :
  let cfg := example_cfg [u "A"] None in
  let st := set_current_sym_candles [example_row 1] (first_state (u "A")) in
  let broken := {| name := JStr (u "timescale_update"); params := JArr [] |} in
  handle_event cfg broken (opened_client, st) = (Raised IndexError, (opened_client, st))
  /\ (handle_event cfg (timescale_update [example_row 2]) (opened_client, st)).1
     = Returned false.
Proof.
  intros cfg st broken.
  destruct (timescale_update_accumulates_or_raises cfg broken opened_client st eq_refl)
    as (_ & _ & Hraise).
  destruct (timescale_update_accumulates_or_raises cfg (timescale_update [example_row 2])
              opened_client st eq_refl) as (Hiff & _ & _).
  split.
  - destruct (Hraise ltac:(done)) as [_ Hsame].
    by destruct (handle_event cfg broken (opened_client, st)) as [out w] eqn:E.
  - apply Hiff. by eexists.
Defined.

(** *** No cap *)

Definition with_amount (a : option Z) (cfg : FetchConfig) : FetchConfig :=
  {| symbols := symbols cfg; amount := a; timeframe := timeframe cfg;
     chart_session := chart_session cfg |}.

(** X18. An amount of zero is no amount: a fetch asked for zero candles
    queues the same messages and handles every event in every state exactly
    as a fetch without a cap does, with the full batch size and without
    cutting the rows. *)
Theorem zero_amount_is_no_cap (cfg : FetchConfig) :
  (forall h c, get_candles h (with_amount (Some 0) cfg) c
               = get_candles h (with_amount None cfg) c)
  /\ (forall event w, handle_event (with_amount (Some 0) cfg) event w
                      = handle_event (with_amount None cfg) event w)
  /\ batch_size (Some 0) = MAX_BATCH_SIZE
  /\ (forall n, another_page (Some 0) n = another_page None n)
  /\ (forall st, kept_rows (with_amount (Some 0) cfg) st = current_sym_candles st).
Proof.
  split; [|split; [|split; [done|split; [|done]]]].
  - intros h c. reflexivity.
  - intros event [c st]. unfold handle_event.
    destruct (name_is event "timescale_update"); [reflexivity|].
    destruct (series_end event); [|reflexivity].
    rewrite !on_series_end_eq, !symbol_loaded_eq. reflexivity.
  - intros n. reflexivity.
Qed.

(** ** The read loop *)

(** The messages that the socket yields to [_handle_messages]; [OTHER]
    stands for the types the loop passes over. The iterator ends at the end
    of the list. *)
Inductive WSMessage : Type :=
| TEXT (data : wire)
| ERROR
| OTHER.

(** How the loop stands after a message. *)
Inductive reader_end : Type :=
| Reading                (* it goes on with the next message *)
| Stopped (e : exn)      (* an exception left the loop *)
| Broke                  (* the [break] of an [ERROR] message *)
| Unpredicted.           (* a publish ended with [SetChangedInPlace] *)

Definition set_changed_size : exn :=
  RuntimeError (txt "Set changed size during iteration").

Section ReadLoop.
Context {S : Type}.
Variable call : hid -> TradingviewEvent -> @world S -> outcome bool * @world S.

(** [rd_replies] are the heartbeats written back, [rd_printed] the lines of
    [_parse_message], [rd_published] the events handed to
    [_notify_subscribers] with the invocations made, [rd_reported] the
    handler errors printed. *)
Record reading : Type := {
  rd_world : @world S;
  rd_replies : list wire;
  rd_printed : list wire;
  rd_published : list (TradingviewEvent * list (hid * outcome bool));
  rd_reported : list exn;
  rd_end : reader_end
}.

Definition begin (w : @world S) : reading :=
  {| rd_world := w; rd_replies := []; rd_printed := []; rd_published := [];
     rd_reported := []; rd_end := Reading |}.

Definition set_rd_end (e : reader_end) (r : reading) : reading :=
  {| rd_world := rd_world r; rd_replies := rd_replies r; rd_printed := rd_printed r;
     rd_published := rd_published r; rd_reported := rd_reported r; rd_end := e |}.

Definition set_rd_world (w : @world S) (r : reading) : reading :=
  {| rd_world := w; rd_replies := rd_replies r; rd_printed := rd_printed r;
     rd_published := rd_published r; rd_reported := rd_reported r; rd_end := rd_end r |}.

(** [TradingviewEvent("session_event", [payload["data"]])]. *)
Definition session_event (parsed : json) : TradingviewEvent :=
  {| name := JStr (u "session_event"); params := JArr [parsed] |}.

(** [self._notify_subscribers(event)] in the loop. *)
Definition publish (event : TradingviewEvent) (r : reading) : reading :=
  let p := _notify_subscribers call event (rd_world r) in
  {| rd_world := p_world p; rd_replies := rd_replies r; rd_printed := rd_printed r;
     rd_published := rd_published r ++ [(event, p_calls p)];
     rd_reported := rd_reported r ++ p_reported p;
     rd_end := match p_end p with
               | Completed => Reading
               | SetChangedSize => Stopped set_changed_size
               | SetChangedInPlace => Unpredicted
               end |}.

(** One payload (lines 95 to 109); the write of a heartbeat is taken to
    succeed. *)
Definition dispatch (p : payload) (r : reading) : reading :=
  match p with
  | Ping data =>
      {| rd_world := rd_world r; rd_replies := rd_replies r ++ [data];
         rd_printed := rd_printed r; rd_published := rd_published r;
         rd_reported := rd_reported r; rd_end := rd_end r |}
  | Session parsed => publish (session_event parsed) r
  | Event parsed =>
      match event_of parsed with
      | Returned event => publish event r
      | Raised e => set_rd_end (Stopped e) r
      end
  end.

Fixpoint dispatch_all (payloads : list payload) (r : reading) : reading :=
  match payloads with
  | [] => r
  | p :: rest =>
      let r' := dispatch p r in
      match rd_end r' with
      | Reading => dispatch_all rest r'
      | _ => r'
      end
  end.

(** The body of the loop for one message. *)
Definition read_message (msg : WSMessage) (r : reading) : reading :=
  match msg with
  | TEXT data =>
      let '(out, payloads) := _parse_message data in
      let r' :=
        {| rd_world := rd_world r; rd_replies := rd_replies r;
           rd_printed := rd_printed r ++ out; rd_published := rd_published r;
           rd_reported := rd_reported r; rd_end := rd_end r |} in
      match payloads with
      | Returned ps => dispatch_all ps r'
      | Raised e => set_rd_end (Stopped e) r'
      end
  | ERROR => set_rd_end Broke r
  | OTHER => r
  end.

Fixpoint read_all (msgs : list WSMessage) (r : reading) : reading :=
  match msgs with
  | [] => r
  | msg :: rest =>
      let r' := read_message msg r in
      match rd_end r' with
      | Reading => read_all rest r'
      | _ => r'
      end
  end.

(** [_handle_messages] on the messages that the socket yields until it is
    closed: the loop, then the [finally] clause. *)
Definition _handle_messages (msgs : list WSMessage) (w : @world S) : reading :=
  let r := read_all msgs (begin w) in
  set_rd_world (set_connected false (rd_world r).1, (rd_world r).2) r.
End ReadLoop.

Arguments reading : clear implicits.

(** A publish to a registry of one handler that leaves the registry alone. *)
Lemma publish_to_one {S : Type}
    (call : hid -> TradingviewEvent -> @world S -> outcome bool * @world S)
    (event : TradingviewEvent) (w w' : @world S) (h : hid) (out : outcome bool) :
  subscribers w.1 = {[h]} ->
  call h event w = (out, w') ->
  subscribers w'.1 = {[h]} ->
  _notify_subscribers call event w
  = {| p_world := match out with
                  | Returned true => (unsubscribe h w'.1, w'.2)
                  | _ => w'
                  end;
       p_calls := [(h, out)];
       p_reported := match out with Raised e => [e] | Returned _ => [] end;
       p_end := Completed |}.
Proof.
  intros Hreg Hcall Hreg'. unfold _notify_subscribers.
  rewrite Hreg, elements_singleton. cbn [notify_loop].
  unfold iterator_check. rewrite decide_True by done. rewrite Hcall.
  destruct out as [[]|e]; cbn [notify_loop]; unfold iterator_check;
    rewrite decide_True by done; by destruct w'.
Qed.

Lemma parse_message_object (d : list (pystr * json)) :
  wf_json (JObj d) = true -> has_marker (dumps (JObj d)) = false ->
  _parse_message (frame (dumps (JObj d))) = ([], Returned [classify_object d]).
Proof.
  intros Hwf Hmarker. by rewrite parse_message_value, classify_JObj.
Qed.

(** *** The handshake *)

(** The handler [on_session] of [connect] as the registry invokes it. *)
Definition invoke_on_session {S : Type} (token : pystr) (event : TradingviewEvent)
    (w : @world S) : outcome bool * @world S :=
  ((on_session token event w.1).1, ((on_session token event w.1).2, w.2)).



(** *** Payloads that stop the loop *)

(** The values that the loop cannot take for a message, with the error they
    raise: a value that cannot be searched for [session_id]; a string or a
    list without it, which has no item [m]; an object without it that lacks
    [m] or [p]. *)
Inductive malformed : json -> exn -> Prop :=
| malformed_scalar v :
    is_container v = false -> malformed v TypeError
| malformed_sequence v :
    is_container v = true -> is_object v = false ->
    contains (u "session_id") v = Returned false -> malformed v TypeError
| malformed_object d :
    u "session_id" ∉ d.*1 -> u "m" ∉ d.*1 \/ u "p" ∉ d.*1 ->
    malformed (JObj d) KeyError.

Lemma read_all_stopped {S : Type}
    (call : hid -> TradingviewEvent -> @world S -> outcome bool * @world S)
    (msg : WSMessage) (later : list WSMessage) (r : reading S) :
  rd_end (read_message call msg r) <> Reading ->
  read_all call (msg :: later) r = read_message call msg r.
Proof. intros Hstop. cbn [read_all]. by destruct (rd_end _). Qed.



(** *** A fetch, from the socket to the future *)

(** The two messages of the server that carry one symbol's rows. *)
Definition timescale_update_message (cfg : FetchConfig) (rows : list json)
  : list (pystr * json) :=
  [(u "m", JStr (u "timescale_update"));
   (u "p", JArr [JStr (chart_session cfg);
                 JObj [(u "sds_1", JObj [(u "s", JArr rows)])]])].

Definition series_completed_message (cfg : FetchConfig) : list (pystr * json) :=
  [(u "m", JStr (u "series_completed"));
   (u "p", JArr [JStr (chart_session cfg); JStr (u "sds_1")])].

(** An event handed to a registry of one handler that leaves the registry
    alone. *)
Lemma dispatch_to_one {S : Type}
    (call : hid -> TradingviewEvent -> @world S -> outcome bool * @world S)
    (parsed : json) (event : TradingviewEvent) (r : reading S) (w' : @world S)
    (h : hid) (out : outcome bool) :
  event_of parsed = Returned event ->
  subscribers (rd_world r).1 = {[h]} ->
  call h event (rd_world r) = (out, w') ->
  subscribers w'.1 = {[h]} ->
  dispatch call (Event parsed) r
  = {| rd_world := match out with
                   | Returned true => (unsubscribe h w'.1, w'.2)
                   | _ => w'
                   end;
       rd_replies := rd_replies r; rd_printed := rd_printed r;
       rd_published := rd_published r ++ [(event, [(h, out)])];
       rd_reported := rd_reported r
                      ++ match out with Raised e => [e] | Returned _ => [] end;
       rd_end := Reading |}.
Proof.
  intros Hevent Hreg Hcall Hreg'. unfold dispatch. rewrite Hevent. unfold publish.
  by rewrite (publish_to_one call event (rd_world r) w' h out).
Qed.



(** *** How the loop ends *)

Lemma read_all_after_error {S : Type}
    (call : hid -> TradingviewEvent -> @world S -> outcome bool * @world S)
    (msgs later : list WSMessage) (r : reading S) :
  read_all call (msgs ++ ERROR :: later) r = read_all call (msgs ++ [ERROR]) r.
Proof.
  revert r. induction msgs as [|msg msgs IH]; intros r; [done|].
  cbn [app read_all]. destruct (rd_end (read_message call msg r)); by rewrite ?IH.
Qed.

Definition is_other (msg : WSMessage) : bool :=
  match msg with
  | OTHER => true
  | _ => false
  end.

Lemma read_all_other {S : Type}
    (call : hid -> TradingviewEvent -> @world S -> outcome bool * @world S)
    (msgs : list WSMessage) (r : reading S) :
  rd_end r = Reading ->
  read_all call (filter (fun msg => negb (is_other msg)) msgs) r = read_all call msgs r.
Proof.
  revert r. induction msgs as [|msg msgs IH]; intros r Hr; [done|].
  destruct (is_other msg) eqn:Hmsg.
  - rewrite filter_cons_False by (rewrite Hmsg; simpl; tauto). destruct msg; try done.
    cbn [read_all read_message]. rewrite Hr. by apply IH.
  - rewrite filter_cons_True by (rewrite Hmsg; simpl; tauto). cbn [read_all].
    destruct (rd_end (read_message call msg r)) eqn:Hend; try done. by apply IH.
Qed.

(** X22. How the read loop ends. Whatever the messages and whatever the
    handlers do, the connected flag is False when [_handle_messages]
    returns; nothing is read after an [ERROR] message; messages of other
    types than [TEXT] and [ERROR] make no difference; and with no message
    at all the flag is cleared and nothing else changes. *)
Theorem reader_loop_control {S : Type}
    (call : hid -> TradingviewEvent -> @world S -> outcome bool * @world S)
    (msgs : list WSMessage) (w : @world S) :
  connected (rd_world (_handle_messages call msgs w)).1 = false
  /\ (forall later,
        _handle_messages call (msgs ++ ERROR :: later) w
        = _handle_messages call (msgs ++ [ERROR]) w)
  /\ _handle_messages call (filter (fun msg => negb (is_other msg)) msgs) w
     = _handle_messages call msgs w
  /\ _handle_messages call [] w
     = set_rd_world (set_connected false w.1, w.2) (begin w).
Proof.
  split; [done|]. split; [|split; [|done]].
  - intros later. unfold _handle_messages. by rewrite read_all_after_error.
  - unfold _handle_messages. by rewrite read_all_other.
Qed.

(** ** The token of [connect] *)

(** The [re.search] of line 56 on the text of the page, for the key
    [auth_token] in double quotes, a colon, a double quote, a lazy group of
    one or more characters and a double quote: the group is at least one
    character, none of them a line feed, up to the first double quote after
    its first character; the search takes the first place in the text where
    that matches. *)
Definition auth_token_key : pystr := cps (sq "'auth_token':'").

Definition is_line_feed (c : N) : bool := (c =? 10)%N.
Definition is_quote (c : N) : bool := (c =? 34)%N.

Fixpoint until_quote (s : pystr) : option pystr :=
  match s with
  | [] => None
  | c :: r =>
      if is_quote c then Some []
      else if is_line_feed c then None
      else t ← until_quote r; Some (c :: t)
  end.

Definition match_token (s : pystr) : option pystr :=
  if is_prefix_of auth_token_key s then
    match drop (length auth_token_key) s with
    | c :: r => if is_line_feed c then None else t ← until_quote r; Some (c :: t)
    | [] => None
    end
  else None.

Fixpoint search_token (data : pystr) : option pystr :=
  match match_token data with
  | Some t => Some t
  | None =>
      match data with
      | [] => None
      | _ :: r => search_token r
      end
  end.

Definition unauthorized_user_token : pystr := u "unauthorized_user_token".

(** Lines 46 to 58: [session_id] as it is passed, [data] the text of the
    page fetched with it. *)
Definition connect_token (session_id : option pystr) (data : pystr) : pystr :=
  match session_id with
  | Some (_ :: _) => default unauthorized_user_token (search_token data)
  | _ => unauthorized_user_token
  end.

Lemma until_quote_plain (t rest : pystr) :
  Forall (fun c => is_quote c = false /\ is_line_feed c = false) t ->
  until_quote (t ++ 34%N :: rest) = Some t.
Proof.
  induction 1 as [|c t [Hq Hn] _ IH]; [done|].
  cbn [app until_quote]. by rewrite Hq, Hn, IH.
Qed.

Lemma is_prefix_of_app {A} `{EqDecision A} (p l : list A) : is_prefix_of p (p ++ l) = true.
Proof.
  induction p as [|a p IH]; [by destruct l|].
  change (bool_decide (a = a) && is_prefix_of p (p ++ l) = true).
  by rewrite bool_decide_eq_true_2, IH.
Qed.

Lemma is_prefix_of_split {A} `{EqDecision A} (p l : list A) :
  is_prefix_of p l = true -> l = p ++ drop (length p) l.
Proof.
  revert l. induction p as [|a p IH]; intros [|b l] Hp; try done.
  change (bool_decide (a = b) && is_prefix_of p l = true) in Hp.
  apply andb_true_iff in Hp as [Hab Hp]. apply bool_decide_eq_true in Hab. subst b.
  cbn [length drop app]. f_equal. by apply IH.
Qed.

Lemma search_token_skip (before rest : pystr) :
  (forall i, (i < length before)%nat ->
             is_prefix_of auth_token_key (drop i (before ++ rest)) = false) ->
  search_token (before ++ rest) = search_token rest.
Proof.
  induction before as [|c before IH]; intros Hfirst; [done|].
  cbn [app search_token]. unfold match_token.
  pose proof (Hfirst 0%nat ltac:(simpl; lia)) as Hhere. cbn [drop app] in Hhere.
  rewrite Hhere. apply IH. intros i Hi. apply (Hfirst (S i)). simpl; lia.
Qed.

Lemma search_token_here (data t : pystr) :
  match_token data = Some t -> search_token data = Some t.
Proof. intros Hm. destruct data; cbn [search_token]; by rewrite Hm. Qed.

Lemma search_token_sound (data t : pystr) :
  search_token data = Some t ->
  exists before first more after,
    data = before ++ auth_token_key ++ t ++ 34%N :: after
    /\ t = first :: more
    /\ Forall (fun c => is_line_feed c = false) t
    /\ Forall (fun c => is_quote c = false) more.
Proof.
  induction data as [|c data IH].
  { cbn. unfold match_token. done. }
  cbn [search_token].
  destruct (match_token (c :: data)) as [t'|] eqn:Hm.
  - intros [= ->]. unfold match_token in Hm.
    destruct (is_prefix_of auth_token_key (c :: data)) eqn:Hp; [|done].
    pose proof (is_prefix_of_split _ _ Hp) as Hsplit.
    destruct (drop (length auth_token_key) (c :: data)) as [|first r] eqn:Hd; [done|].
    destruct (is_line_feed first) eqn:Hfirst; [done|].
    destruct (until_quote r) as [more|] eqn:Hu; [|done]. injection Hm as <-.
    assert (exists after, r = more ++ 34%N :: after
                          /\ Forall (fun c => is_line_feed c = false) more
                          /\ Forall (fun c => is_quote c = false) more)
      as (after & -> & Hlf & Hq).
    { clear -Hu. revert more Hu. induction r as [|x r IHr]; intros more Hu; [done|].
      cbn [until_quote] in Hu. destruct (is_quote x) eqn:Hx.
      - injection Hu as <-. exists r. apply N.eqb_eq in Hx. subst x. by repeat split.
      - destruct (is_line_feed x) eqn:Hn; [done|].
        destruct (until_quote r) as [more'|] eqn:Hr; [|done]. injection Hu as <-.
        destruct (IHr more' eq_refl) as (after & -> & Hlf & Hq).
        exists after. split; [done|]. split; by constructor. }
    exists [], first, more, after. split; [exact Hsplit|].
    split; [done|]. split; [by constructor|done].
  - intros Hs. destruct (IH Hs) as (before & first & more & after & -> & Ht & Hlf & Hq).
    exists (c :: before), first, more, after. done.
Qed.

(** X23. The token that [connect] uses with a session id: when the page
    holds the text [auth_token_key] for the first time right before a non-empty text
    without a double quote or a line feed, followed by a double quote, the
    token is that text. *)
Theorem connect_token_is_first_quoted_value (session_id : pystr)
    (before token after : pystr)
    (Hsession : session_id <> [])
    (Hfirst : forall i, (i < length before)%nat ->
       is_prefix_of auth_token_key
         (drop i (before ++ auth_token_key ++ token ++ 34%N :: after)) = false)
    (Hsome : token <> [])
    (Hplain : Forall (fun c => is_quote c = false /\ is_line_feed c = false) token) :
  connect_token (Some session_id) (before ++ auth_token_key ++ token ++ 34%N :: after)
  = token.
Proof.
  unfold connect_token. destruct session_id as [|s0 session_id]; [done|].
  rewrite search_token_skip by done.
  destruct token as [|c token]; [done|].
  apply Forall_cons in Hplain as [[_ Hc] Hplain].
  rewrite (search_token_here _ (c :: token)); [done|].
  unfold match_token. rewrite is_prefix_of_app, drop_app_length. cbn [app].
  by rewrite Hc, until_quote_plain.
Qed.

(** A page with the token in a script. *)
Lemma connect_token_is_first_quoted_value_witness :
  connect_token (Some (u "abc123"))
    (cps (sq "<script>var user = {'id':7,'auth_token':'eyJhbGciOi','x':''};</script>"))
  = u "eyJhbGciOi".
Proof.
  refine (connect_token_is_first_quoted_value (u "abc123")
            (cps (sq "<script>var user = {'id':7,")) (u "eyJhbGciOi")
            (cps (sq ",'x':''};</script>")) ltac:(done) _ ltac:(done) _).
  - intros i Hi.
    do 27 (destruct i as [|i]; [reflexivity|]). vm_compute in Hi. lia.
  - repeat constructor.
Defined.

(** X24. When the token is the fallback. Without a session id, or with an
    empty one, the token is [unauthorized_user_token] whatever the page
    holds; so it is when the search finds nothing, as on a page without
    ["auth_token":"]. In every case the token is the fallback or a
    non-empty text of the page that directly follows ["auth_token":"], holds
    no line feed, holds no double quote after its first character, and is
    followed by a double quote. *)
Theorem connect_token_falls_back (session_id : option pystr) (data : pystr) :
  (session_id = None \/ session_id = Some [] ->
   connect_token session_id data = unauthorized_user_token)
  /\ (search_token data = None -> connect_token session_id data = unauthorized_user_token)
  /\ (is_substring auth_token_key data = false -> search_token data = None)
  /\ (connect_token session_id data = unauthorized_user_token
      \/ exists before first more after,
           data = before ++ auth_token_key ++ connect_token session_id data
                  ++ 34%N :: after
           /\ connect_token session_id data = first :: more
           /\ Forall (fun c => is_line_feed c = false) (first :: more)
           /\ Forall (fun c => is_quote c = false) more).
Proof.
  split; [|split; [|split]].
  - by intros [->| ->].
  - intros Hnone. unfold connect_token. rewrite Hnone. by destruct session_id as [[|? ?]|].
  - induction data as [|c data IH]; intros Hsub.
    + done.
    + cbn [is_substring] in Hsub. apply orb_false_iff in Hsub as [Hhere Hsub].
      cbn [search_token]. unfold match_token. rewrite Hhere. by apply IH.
  - unfold connect_token. destruct session_id as [[|s0 session_id]|]; [by left| |by left].
    destruct (search_token data) as [t|] eqn:Hs; [|by left]. right.
    destruct (search_token_sound data t Hs) as (before & first & more & after & Hd & Ht & H).
    exists before, first, more, after. cbn [default]. rewrite <- Ht. done.
Qed.

(** ** The file of [store_candles] *)

(** [s.replace(old, new)] for two one-character strings. *)
Definition replace_char (old new : N) (s : pystr) : pystr :=
  (fun c => if (c =? old)%N then new else c) <$> s.

(** Line 20 of [storeCandles.py], for the text that [strftime] gave. *)
Definition filename (symbol : pystr) (timeframe : Timeframe) (timestamp : pystr) : pystr :=
  replace_char 58 45
    (u "data/" ++ symbol ++ u "-" ++ str_timeframe timeframe ++ u "-" ++ timestamp
     ++ u ".csv").

Lemma replace_char_absent (old new : N) (s : pystr) :
  old ∉ s -> replace_char old new s = s.
Proof.
  induction s as [|c s IH]; intros Hs; [done|].
  apply not_elem_of_cons in Hs as [Hc Hs]. unfold replace_char in *. cbn [fmap list_fmap].
  fold (fmap (M:=list) (fun c => if (c =? old)%N then new else c) s).
  rewrite IH by done. destruct (N.eqb_spec c old); [by subst|done].
Qed.

Lemma replace_char_gone (old new : N) (s : pystr) :
  old <> new -> old ∉ replace_char old new s.
Proof.
  intros Hne. unfold replace_char. rewrite list_elem_of_fmap. intros (c & Heq & _).
  destruct (N.eqb_spec c old); congruence.
Qed.

Lemma replace_char_app (old new : N) (s t : pystr) :
  replace_char old new (s ++ t) = replace_char old new s ++ replace_char old new t.
Proof. unfold replace_char. by rewrite fmap_app. Qed.

(** X25. The name of the file that [store_candles] writes holds no colon:
    every colon of the symbol, the timeframe and the timestamp is replaced
    by a hyphen and nothing else is changed, so a name without colons is
    kept as it is, and two symbols that differ only by a colon against a
    hyphen are written to the same file. *)
Theorem filename_has_no_colon (symbol : pystr) (timeframe : Timeframe) (timestamp : pystr) :
(58%N ∉ filename symbol timeframe timestamp)
  /\ filename symbol timeframe timestamp
     = u "data/" ++ replace_char 58 45 symbol ++ u "-"
       ++ replace_char 58 45 (str_timeframe timeframe) ++ u "-"
       ++ replace_char 58 45 timestamp ++ u ".csv"
  /\ (58%N ∉ symbol -> 58%N ∉ str_timeframe timeframe -> 58%N ∉ timestamp ->
      filename symbol timeframe timestamp
      = u "data/" ++ symbol ++ u "-" ++ str_timeframe timeframe ++ u "-" ++ timestamp
        ++ u ".csv")
  /\ (forall exchange ticker,
        filename (exchange ++ 58%N :: ticker) timeframe timestamp
        = filename (exchange ++ 45%N :: ticker) timeframe timestamp).
Proof.
  assert (Hparts : filename symbol timeframe timestamp
                   = u "data/" ++ replace_char 58 45 symbol ++ u "-"
                     ++ replace_char 58 45 (str_timeframe timeframe) ++ u "-"
                     ++ replace_char 58 45 timestamp ++ u ".csv").
  { unfold filename. by rewrite !replace_char_app. }
  split; [by apply replace_char_gone|]. split; [exact Hparts|]. split.
  - intros H1 H2 H3. rewrite Hparts. by rewrite !replace_char_absent.
  - intros exchange ticker. unfold filename. rewrite !replace_char_app.
    reflexivity.
Qed.
